(** * A shallow embedding of the Go package [expect]

    The package drives one child process behind a pseudo-terminal:
    [Spawn] starts it, [Expect], [ExpectRe] and [ExpectAny] scan its
    output for a literal or a regular expression under a read
    deadline, [Interact] hands the terminal to the operator and [Wait]
    tears the session down.  [PipeThrough] gives a plain reader a
    deadline and a close.

    Everything the package asks of the operating system (the clock, the
    child, the pseudo-terminal, the pipe that feeds the scanner, the
    terminal mode) is written out as explicit state, so that each
    method is a function from a session to an outcome. *)

From Stdlib Require Import ZArith String Ascii List Bool Lia.
Import ListNotations.
Local Open Scope string_scope.
Local Open Scope list_scope.
Local Open Scope Z_scope.

(** ** Time *)

(** [time.Time]: an instant, in nanoseconds after the zero [Time].
    [t.IsZero()] is [t = 0].  [time.Duration] is a count of
    nanoseconds (an int64); the package compares durations and adds
    one to an instant, which [Time.Add] does without wrapping
    around. *)
Definition Time := Z.
Definition Duration := Z.

Definition Second : Duration := 1000000000.

(** [const DefaultTimeout = 60 * time.Second] *)
Definition DefaultTimeout : Duration := 60 * Second.

Definition IsZero (t : Time) : bool := t =? 0.

(** [t.Add(d)] *)
Definition Add (t : Time) (d : Duration) : Time := t + d.

(** ** Errors *)

Inductive error : Type :=
| New (msg : string)            (* errors.New(msg) *)
| EOF                           (* io.EOF *)
| ErrDeadlineExceeded           (* os.ErrDeadlineExceeded, "i/o timeout" *)
| ErrClosed                     (* os.ErrClosed, "file already closed" *)
| ErrTooLong                    (* bufio.ErrTooLong *)
| ErrSys (msg : string) (tmo : bool).
                                (* any other failure of a system call;
                                   [tmo] is its Timeout() answer *)

(** [os.IsTimeout(err)] *)
Definition IsTimeout (err : error) : bool :=
  match err with
  | ErrDeadlineExceeded => true
  | ErrSys _ tmo => tmo
  | _ => false
  end.

Definition error_eq_dec (x y : error) : {x = y} + {x <> y}.
Proof. decide equality; first [apply string_dec | apply bool_dec]. Defined.

(** ** Strings *)

(** Go strings are byte strings; [len(s)] counts bytes. *)
Definition len (s : string) : Z := Z.of_nat (String.length s).

Definition byte_val (c : ascii) : Z := Z.of_nat (nat_of_ascii c).

(** [strings.Contains(s, substr)] *)
Fixpoint Contains (s substr : string) : bool :=
  if String.prefix substr s then true
  else match s with
       | EmptyString => false
       | String _ rest => Contains rest substr
       end.

(** *** Runes: [utf8.DecodeRuneInString] *)

Definition RuneError : Z := 65533.

Definition between (lo hi b : Z) : bool := (lo <=? b) && (b <=? hi).

(** The continuation byte at index [i], or [-1] past the end. *)
Definition byte_at (s : string) (i : nat) : Z :=
  match String.get i s with
  | Some c => byte_val c
  | None => -1
  end.

(** Size announced by the first byte ([first[s0] & 7]); 1 for ASCII
    and for an invalid first byte. *)
Definition rune_size (b0 : Z) : nat :=
  if between 194 223 b0 then 2
  else if between 224 239 b0 then 3
  else if between 240 244 b0 then 4
  else 1.

(** [acceptRanges[first[s0] >> 4]]: the range the second byte must
    fall in. *)
Definition accept_range (b0 : Z) : Z * Z :=
  if b0 =? 224 then (160, 191)
  else if b0 =? 237 then (128, 159)
  else if b0 =? 240 then (144, 191)
  else if b0 =? 244 then (128, 143)
  else (128, 191).

Definition cont (b : Z) : Z := Z.land b 63.

Definition DecodeRuneInString (s : string) : Z * nat :=
  match s with
  | EmptyString => (RuneError, 0%nat)
  | String c0 _ =>
      let s0 := byte_val c0 in
      if s0 <? 128 then (s0, 1%nat)
      else
        let sz := rune_size s0 in
        if Nat.eqb sz 1 then (RuneError, 1%nat)
        else if Nat.ltb (String.length s) sz then (RuneError, 1%nat)
        else
          let '(lo, hi) := accept_range s0 in
          let s1 := byte_at s 1 in
          if negb (between lo hi s1) then (RuneError, 1%nat)
          else if Nat.leb sz 2 then
            (Z.lor (Z.shiftl (Z.land s0 31) 6) (cont s1), 2%nat)
          else
            let s2 := byte_at s 2 in
            if negb (between 128 191 s2) then (RuneError, 1%nat)
            else if Nat.leb sz 3 then
              (Z.lor (Z.lor (Z.shiftl (Z.land s0 15) 12)
                            (Z.shiftl (cont s1) 6)) (cont s2), 3%nat)
            else
              let s3 := byte_at s 3 in
              if negb (between 128 191 s3) then (RuneError, 1%nat)
              else
                (Z.lor (Z.lor (Z.lor (Z.shiftl (Z.land s0 7) 18)
                                     (Z.shiftl (cont s1) 12))
                              (Z.shiftl (cont s2) 6)) (cont s3), 4%nat)
  end.

(** [for _, r := range s]: the runes of [s], each with the bytes that
    encode it.  [skip] counts the bytes of the current rune still to
    step over. *)
Fixpoint runes_from (skip : nat) (s : string) : list (Z * string) :=
  match s with
  | EmptyString => []
  | String _ rest =>
      match skip with
      | S k => runes_from k rest
      | O =>
          let '(r, w) := DecodeRuneInString s in
          (r, String.substring 0 w s) :: runes_from (w - 1) rest
      end
  end.

Definition runes (s : string) : list (Z * string) := runes_from 0 s.

(** [unicode.IsSpace] *)
Definition IsSpace (r : Z) : bool :=
  if r <=? 255 then
    between 9 13 r || (r =? 32) || (r =? 133) || (r =? 160)
  else
    (r =? 5760) || between 8192 8202 r || between 8232 8233 r
    || (r =? 8239) || (r =? 8287) || (r =? 12288).

(** [strings.FieldsFunc(s, f)], over the runes of [s]; [cur] is the
    field being collected, if one is open. *)
Fixpoint fields_of (f : Z -> bool) (rs : list (Z * string))
         (cur : option string) : list string :=
  match rs with
  | [] => match cur with Some fld => [fld] | None => [] end
  | (r, bytes) :: rest =>
      if f r then
        match cur with
        | Some fld => fld :: fields_of f rest None
        | None => fields_of f rest None
        end
      else
        fields_of f rest
          (Some (match cur with Some fld => String.append fld bytes | None => bytes end))
  end.

Definition FieldsFunc (s : string) (f : Z -> bool) : list string :=
  fields_of f (runes s) None.

(** [strings.Fields(s)] *)
Definition Fields (s : string) : list string := FieldsFunc s IsSpace.

(** A string all of whose runes are white space. *)
Definition only_space (s : string) : bool :=
  forallb (fun p => IsSpace (fst p)) (runes s).

(** ** The session

    What follows the last line on the pipe that feeds the scanner. *)
Inductive Ending : Type :=
| Silent                          (* the write end stays open, nothing more comes *)
| Eof (at_ : Time)                (* the write end is closed at that instant *)
| Fails (at_ : Time) (err : error).
                                  (* the read fails with [err] at that instant *)

(** The system calls a session makes, as they are observed. *)
Inductive Event : Type :=
| EvSetReadDeadline (t : Time)    (* e.reader.SetReadDeadline(t) *)
| EvCmdWait                       (* e.cmd.Wait() returned: the child has exited *)
| EvPtyClose (r : option error)   (* e.pty.Close() *)
| EvSignalStop                    (* signal.Stop(e.signalCh) *)
| EvCloseSignalCh                 (* close(e.signalCh) *)
| EvTermRestore (r : option error)(* term.Restore(stdin, e.oldState) *)
| EvReaderClose (r : option error)(* e.reader.Close() *)
| EvCopyPty                       (* io.Copy(os.Stdout, e.pty) returned *)
| EvPtyWrite (s : string) (r : option error).
                                  (* e.pty.Write / e.pty.WriteString *)

(** [type Expect struct]: the fields of the Go struct together with
    the state of the handles they point to.  The record is called
    [Session] because [Expect] names the method below.

    - [cmd_path]: path of the child: commands[0];
    - [cmd_args]: its arguments: commands[1:];
    - [timeout]: e.timeout, the default timeout;
    - [now]: the clock, as the calling goroutine last saw it;
    - [child_exit]: instant the child exits; None: it never does;
    - [pty_closed]: e.pty has been closed;
    - [pty_close_err]: what the first e.pty.Close() answers;
    - [pty_hangup]: instant reads of e.pty start to fail; None: never;
    - [raw]: the terminal is in raw mode (e.oldState not restored);
    - [restore_err]: what term.Restore answers;
    - [signal_closed]: e.signalCh has been closed;
    - [deadline]: read deadline of e.reader; the zero Time: none;
    - [reader_closed]: e.reader has been closed;
    - [reader_close_err]: what the first e.reader.Close() answers;
    - [fetched]: instant of the last read that brought data into the
      scanner's buffer;
    - [token]: e.scanner.Text();
    - [serr]: the error the scanner stopped on (io.EOF included);
    - [lines]: lines the relay still has to deliver, each with the
      instant it reaches the pipe;
    - [ending]: what the pipe does after the last line;
    - [trace]: system calls made so far, oldest first;
    - [pty_write_err]: what a write to e.pty answers. *)
Record Session : Type := mkSession {
  cmd_path : string;
  cmd_args : list string;
  timeout : Duration;
  now : Time;
  child_exit : option Time;
  pty_closed : bool;
  pty_close_err : option error;
  pty_hangup : option Time;
  raw : bool;
  restore_err : option error;
  signal_closed : bool;
  deadline : Time;
  reader_closed : bool;
  reader_close_err : option error;
  fetched : option Time;
  token : string;
  serr : option error;
  lines : list (Time * string);
  ending : Ending;
  trace : list Event;
  pty_write_err : option error
}.

Definition set_now (v : Time) (e : Session) : Session :=
  mkSession (cmd_path e) (cmd_args e) (timeout e) v (child_exit e)
    (pty_closed e) (pty_close_err e) (pty_hangup e) (raw e) (restore_err e)
    (signal_closed e) (deadline e) (reader_closed e) (reader_close_err e)
    (fetched e) (token e) (serr e) (lines e) (ending e) (trace e)
    (pty_write_err e).

Definition set_pty_closed (v : bool) (e : Session) : Session :=
  mkSession (cmd_path e) (cmd_args e) (timeout e) (now e) (child_exit e) v
    (pty_close_err e) (pty_hangup e) (raw e) (restore_err e)
    (signal_closed e) (deadline e) (reader_closed e) (reader_close_err e)
    (fetched e) (token e) (serr e) (lines e) (ending e) (trace e)
    (pty_write_err e).

Definition set_raw (v : bool) (e : Session) : Session :=
  mkSession (cmd_path e) (cmd_args e) (timeout e) (now e) (child_exit e)
    (pty_closed e) (pty_close_err e) (pty_hangup e) v (restore_err e)
    (signal_closed e) (deadline e) (reader_closed e) (reader_close_err e)
    (fetched e) (token e) (serr e) (lines e) (ending e) (trace e)
    (pty_write_err e).

Definition set_signal_closed (v : bool) (e : Session) : Session :=
  mkSession (cmd_path e) (cmd_args e) (timeout e) (now e) (child_exit e)
    (pty_closed e) (pty_close_err e) (pty_hangup e) (raw e) (restore_err e)
    v (deadline e) (reader_closed e) (reader_close_err e) (fetched e)
    (token e) (serr e) (lines e) (ending e) (trace e) (pty_write_err e).

Definition set_deadline (v : Time) (e : Session) : Session :=
  mkSession (cmd_path e) (cmd_args e) (timeout e) (now e) (child_exit e)
    (pty_closed e) (pty_close_err e) (pty_hangup e) (raw e) (restore_err e)
    (signal_closed e) v (reader_closed e) (reader_close_err e) (fetched e)
    (token e) (serr e) (lines e) (ending e) (trace e) (pty_write_err e).

Definition set_reader_closed (v : bool) (e : Session) : Session :=
  mkSession (cmd_path e) (cmd_args e) (timeout e) (now e) (child_exit e)
    (pty_closed e) (pty_close_err e) (pty_hangup e) (raw e) (restore_err e)
    (signal_closed e) (deadline e) v (reader_close_err e) (fetched e)
    (token e) (serr e) (lines e) (ending e) (trace e) (pty_write_err e).

Definition set_fetched (v : option Time) (e : Session) : Session :=
  mkSession (cmd_path e) (cmd_args e) (timeout e) (now e) (child_exit e)
    (pty_closed e) (pty_close_err e) (pty_hangup e) (raw e) (restore_err e)
    (signal_closed e) (deadline e) (reader_closed e) (reader_close_err e) v
    (token e) (serr e) (lines e) (ending e) (trace e) (pty_write_err e).

Definition set_token (v : string) (e : Session) : Session :=
  mkSession (cmd_path e) (cmd_args e) (timeout e) (now e) (child_exit e)
    (pty_closed e) (pty_close_err e) (pty_hangup e) (raw e) (restore_err e)
    (signal_closed e) (deadline e) (reader_closed e) (reader_close_err e)
    (fetched e) v (serr e) (lines e) (ending e) (trace e) (pty_write_err e).

Definition set_serr (v : option error) (e : Session) : Session :=
  mkSession (cmd_path e) (cmd_args e) (timeout e) (now e) (child_exit e)
    (pty_closed e) (pty_close_err e) (pty_hangup e) (raw e) (restore_err e)
    (signal_closed e) (deadline e) (reader_closed e) (reader_close_err e)
    (fetched e) (token e) v (lines e) (ending e) (trace e) (pty_write_err e).

Definition set_lines (v : list (Time * string)) (e : Session) : Session :=
  mkSession (cmd_path e) (cmd_args e) (timeout e) (now e) (child_exit e)
    (pty_closed e) (pty_close_err e) (pty_hangup e) (raw e) (restore_err e)
    (signal_closed e) (deadline e) (reader_closed e) (reader_close_err e)
    (fetched e) (token e) (serr e) v (ending e) (trace e) (pty_write_err e).

Definition set_trace (v : list Event) (e : Session) : Session :=
  mkSession (cmd_path e) (cmd_args e) (timeout e) (now e) (child_exit e)
    (pty_closed e) (pty_close_err e) (pty_hangup e) (raw e) (restore_err e)
    (signal_closed e) (deadline e) (reader_closed e) (reader_close_err e)
    (fetched e) (token e) (serr e) (lines e) (ending e) v (pty_write_err e).

Definition log (ev : Event) (e : Session) : Session :=
  set_trace (trace e ++ [ev]) e.

(** ** Outcomes

    A call on a session returns a value and the session as it left
    it, or never returns, or panics. *)
Inductive Outcome (A : Type) : Type :=
| Returns (a : A) (e : Session)
| Blocks
| Panics (msg : string).

Arguments Returns {A} a e.
Arguments Blocks {A}.
Arguments Panics {A} msg.

Definition M (A : Type) : Type := Session -> Outcome A.

Definition ret {A : Type} (a : A) : M A := fun e => Returns a e.

Definition bind {A B : Type} (c : M A) (k : A -> M B) : M B :=
  fun e =>
    match c e with
    | Returns a e1 => k a e1
    | Blocks => Blocks
    | Panics msg => Panics msg
    end.

Notation "x <- c ;; k" := (bind c (fun x => k))
  (at level 61, c at next level, right associativity).
Notation "c ;;; k" := (bind c (fun _ => k))
  (at level 61, right associativity).

(** ** The handles *)

(** [time.Now()] *)
Definition time_Now : M Time := fun e => Returns (now e) e.

(** [e.timeout] *)
Definition get_timeout : M Duration := fun e => Returns (timeout e) e.

(** [e.reader.SetReadDeadline(t)].  A zero [t] means reads do not time
    out; on a closed file the call fails and changes nothing (the
    package drops the answer). *)
Definition reader_SetReadDeadline (t : Time) : M unit :=
  fun e =>
    if reader_closed e then Returns tt (log (EvSetReadDeadline t) e)
    else Returns tt (log (EvSetReadDeadline t) (set_deadline t e)).

(** [e.cmd.Wait()]: returns once the child has exited. *)
Definition cmd_Wait : M unit :=
  fun e =>
    match child_exit e with
    | None => Blocks
    | Some x => Returns tt (log EvCmdWait (set_now (Z.max (now e) x) e))
    end.

(** [e.pty.Close()]: a second close answers [os.ErrClosed]; the
    descriptor is released whatever the first close answers. *)
Definition pty_Close : M (option error) :=
  fun e =>
    if pty_closed e then Returns (Some ErrClosed) (log (EvPtyClose (Some ErrClosed)) e)
    else Returns (pty_close_err e)
                 (log (EvPtyClose (pty_close_err e)) (set_pty_closed true e)).

(** [signal.Stop(e.signalCh)] *)
Definition signal_Stop : M unit :=
  fun e => Returns tt (log EvSignalStop e).

(** [close(e.signalCh)]: closing a closed channel panics. *)
Definition close_signalCh : M unit :=
  fun e =>
    if signal_closed e then Panics "close of closed channel"
    else Returns tt (log EvCloseSignalCh (set_signal_closed true e)).

(** [term.Restore(int(os.Stdin.Fd()), e.oldState)] *)
Definition term_Restore : M (option error) :=
  fun e =>
    match restore_err e with
    | Some x => Returns (Some x) (log (EvTermRestore (Some x)) e)
    | None => Returns None (log (EvTermRestore None) (set_raw false e))
    end.

(** [e.pty.Write(b)] and [e.pty.WriteString(s)]: the count of bytes
    written and the error. *)
Definition pty_Write (s : string) : M (Z * option error) :=
  fun e =>
    if pty_closed e then
      Returns (0, Some ErrClosed) (log (EvPtyWrite s (Some ErrClosed)) e)
    else
      match pty_write_err e with
      | Some x => Returns (0, Some x) (log (EvPtyWrite s (Some x)) e)
      | None => Returns (len s, None) (log (EvPtyWrite s None) e)
      end.

(** [e.reader.Close()] *)
Definition reader_Close : M (option error) :=
  fun e =>
    if reader_closed e then
      Returns (Some ErrClosed) (log (EvReaderClose (Some ErrClosed)) e)
    else Returns (reader_close_err e)
                 (log (EvReaderClose (reader_close_err e))
                      (set_reader_closed true e)).

(** [io.Copy(os.Stdout, e.pty)]: copies until a read of the pty fails,
    which is at once on a closed pty and at the hang-up otherwise. *)
Definition copy_pty_to_Stdout : M unit :=
  fun e =>
    if pty_closed e then Returns tt (log EvCopyPty e)
    else match pty_hangup e with
         | None => Blocks
         | Some h => Returns tt (log EvCopyPty (set_now (Z.max (now e) h) e))
         end.

(** ** The deadline-bounded line scanner

    [e.scanner] is a [bufio.Scanner] with the default split function
    over [e.reader], the read end of the pipe that the relay
    goroutine of Spawn fills with the output of the pty.  The stream
    is given line by line: each line gets to the pipe whole, at its
    instant, and one read takes all that is in the pipe into the
    scanner's buffer.  Text without its newline, which the scanner
    hands out as a last token when a read fails, and the text the
    scanner keeps when a line is too long for it, are not followed:
    every line here is ended, and a scanner that stopped has nothing
    left. *)

(** A line that reached the pipe no later than the last read is
    already in the scanner's buffer. *)
Definition buffered (a : Time) (e : Session) : bool :=
  match fetched e with
  | Some f => a <=? f
  | None => false
  end.

(** One [Read] of [e.reader] by the scanner, for data (or the end of
    the stream) that gets to the pipe at [a]; [None]: nothing ever
    gets there.  The answer is the instant the read returns and its
    error; no answer means the read blocks for ever.  A closed file
    fails at once; a deadline that is not the zero [Time] fails the
    read unless the data is there strictly before it. *)
Definition pipe_Read (a : option Time) (e : Session)
  : option (Time * option error) :=
  if reader_closed e then Some (now e, Some ErrClosed)
  else if IsZero (deadline e) then
    match a with
    | Some a => Some (Z.max (now e) a, None)
    | None => None
    end
  else
    match a with
    | Some a =>
        if Z.max (now e) a <? deadline e then Some (Z.max (now e) a, None)
        else Some (Z.max (now e) (deadline e), Some ErrDeadlineExceeded)
    | None => Some (Z.max (now e) (deadline e), Some ErrDeadlineExceeded)
    end.

(** The scanner stops for good on [err] at instant [t]. *)
Definition stop_at (t : Time) (err : error) (e : Session) : Session :=
  set_serr (Some err) (set_now t e).

(** [e.scanner.Scan()].  Once stopped a scanner stays stopped.  A
    buffered line is handed out without a read; otherwise one read
    fetches what the pipe holds. *)
Definition Scan : M bool :=
  fun e =>
    match serr e with
    | Some _ => Returns false e
    | None =>
        match lines e with
        | (a, text) :: rest =>
            if buffered a e then
              Returns true (set_lines rest (set_token text e))
            else
              match pipe_Read (Some a) e with
              | None => Blocks
              | Some (t, None) =>
                  Returns true
                    (set_lines rest
                       (set_token text (set_fetched (Some t) (set_now t e))))
              | Some (t, Some err) => Returns false (stop_at t err e)
              end
        | [] =>
            match ending e with
            | Silent =>
                match pipe_Read None e with
                | None => Blocks
                | Some (t, None) => Returns false (stop_at t EOF e)
                | Some (t, Some err) => Returns false (stop_at t err e)
                end
            | Eof a =>
                match pipe_Read (Some a) e with
                | None => Blocks
                | Some (t, None) => Returns false (stop_at t EOF e)
                | Some (t, Some err) => Returns false (stop_at t err e)
                end
            | Fails a x =>
                match pipe_Read (Some a) e with
                | None => Blocks
                | Some (t, None) => Returns false (stop_at t x e)
                | Some (t, Some err) => Returns false (stop_at t err e)
                end
            end
        end
    end.

(** [e.scanner.Text()] *)
Definition Text : M string := fun e => Returns (token e) e.

(** [e.scanner.Err()]: the error the scanner stopped on, [io.EOF]
    reported as no error. *)
Definition Err : M (option error) :=
  fun e =>
    match serr e with
    | Some EOF => Returns None e
    | x => Returns x e
    end.

(** ** The methods *)

(** [*regexp.Regexp], as far as the package uses it: [FindString]
    answers the leftmost match in its argument, the empty string when
    there is none.  A nil pointer is [None]. *)
Record Regexp : Type := { FindString : string -> string }.

(** [func (e *Expect) Write(b []byte) (int, error)] *)
Definition Write (b : string) : M (Z * option error) := pty_Write b.

(** [func (e *Expect) Send(s string) (int, error)] *)
Definition Send (s : string) : M (Z * option error) := pty_Write s.

(** [func (e *Expect) SendLine(s string) (int, error)] *)
Definition SendLine (s : string) : M (Z * option error) :=
  pty_Write (String.append s (String (ascii_of_nat 10) "")).

(** [func (e *Expect) Wait() error] *)
Definition Wait : M (option error) :=
  cmd_Wait ;;;
  err <- pty_Close ;;
  match err with
  | Some x => ret (Some x)
  | None =>
      signal_Stop ;;;
      close_signalCh ;;;
      err <- term_Restore ;;
      match err with
      | Some x => ret (Some x)
      | None => ret None
      end
  end.

(** The loop [for e.scanner.Scan() { ... }] of [ExpectAny]: [Some m]
    when the body returns [m], [None] when [Scan] answers false.
    Every turn takes a line off the stream, so one more turn than
    there are lines is all the loop can make; [fuel] is that bound. *)
Fixpoint scan_loop (fuel : nat) (pattern : string) (re : option Regexp)
  : M (option string) :=
  match fuel with
  | O => fun _ => Panics "scan_loop: out of fuel"
  | S fuel' =>
      ok <- Scan ;;
      if ok : bool then
        text <- Text ;;
        if (0 <? len pattern) && Contains text pattern then
          ret (Some pattern)
        else
          match re with
          | Some r =>
              let matched := FindString r text in
              if 0 <? len matched then ret (Some matched)
              else scan_loop fuel' pattern re
          | None => scan_loop fuel' pattern re
          end
      else ret None
  end.

(** [func (e *Expect) ExpectAny(pattern string, re *regexp.Regexp,
    timeout time.Duration) (string, error)] *)
Definition ExpectAny (pattern : string) (re : option Regexp)
           (timeout : Duration) : M (string * option error) :=
  timeout <- (if timeout <? 0 then get_timeout else ret timeout) ;;
  t <- time_Now ;;
  reader_SetReadDeadline (Add t timeout) ;;;
  found <- (fun e => scan_loop (S (List.length (lines e))) pattern re e) ;;
  match found with
  | Some matched => ret (matched, None)
  | None =>
      Wait ;;;
      err <- Err ;;
      match err with
      | Some x => ret ("", Some x)
      | None => ret ("", Some (New "command exit"))
      end
  end.

(** [func (e *Expect) Expect(pattern string, timeout time.Duration)
    (bool, error)] *)
Definition Expect (pattern : string) (timeout : Duration)
  : M (bool * option error) :=
  r <- ExpectAny pattern None timeout ;;
  ret (negb (String.eqb (fst r) ""), snd r).

(** [func (e *Expect) ExpectRe(re *regexp.Regexp, timeout
    time.Duration) (string, error)] *)
Definition ExpectRe (re : option Regexp) (timeout : Duration)
  : M (string * option error) :=
  ExpectAny "" re timeout.

(** [func (e *Expect) Interact() error] *)
Definition Interact : M (option error) :=
  err <- reader_Close ;;
  match err with
  | Some x => ret (Some x)
  | None =>
      copy_pty_to_Stdout ;;;
      ret None
  end.

(** ** Spawn *)

(** What the operating system answers while [Spawn] runs, and what the
    child and its terminal will do afterwards. *)
Record Host : Type := {
  h_now : Time;
  h_start_err : option error;        (* pty.Start(cmd) *)
  h_raw_err : option error;          (* term.MakeRaw *)
  h_pipe_err : option error;         (* os.Pipe *)
  h_child_exit : option Time;
  h_pty_close_err : option error;
  h_pty_hangup : option Time;
  h_restore_err : option error;
  h_reader_close_err : option error;
  h_lines : list (Time * string);
  h_ending : Ending;
  h_write_err : option error
}.

Inductive Spawned : Type :=
| Started (e : Session)
| Failed (err : error)
| Crashed (msg : string).

(** [func Spawn(command string, timeout time.Duration)], which
    answers a session or an error.  The goroutines it starts (the
    resize handler, the relay of the pty's output to the display and
    to the pipe, the relay of the keyboard to the pty) belong to the
    host: what they bring about is what [h] scripts. *)
Definition Spawn (command : string) (timeout : Duration) (h : Host)
  : Spawned :=
  if len command =? 0 then Failed (New "invalid command")
  else
    let timeout := if timeout <? 1 then DefaultTimeout else timeout in
    let commands := Fields command in
    match commands with
    | [] => Crashed "index out of range [0] with length 0"
    | c0 :: args =>
        match h_start_err h with
        | Some err => Failed err
        | None =>
            match h_raw_err h with
            | Some err => Failed err
            | None =>
                match h_pipe_err h with
                | Some err => Failed err
                | None =>
                    Started
                      {| cmd_path := c0; cmd_args := args;
                         timeout := timeout;
                         now := h_now h;
                         child_exit := h_child_exit h;
                         pty_closed := false;
                         pty_close_err := h_pty_close_err h;
                         pty_hangup := h_pty_hangup h;
                         raw := true;
                         restore_err := h_restore_err h;
                         signal_closed := false;
                         deadline := 0;
                         reader_closed := false;
                         reader_close_err := h_reader_close_err h;
                         fetched := None;
                         token := "";
                         serr := None;
                         lines := h_lines h;
                         ending := h_ending h;
                         trace := [];
                         pty_write_err := h_write_err h |}
                end
            end
        end
    end.

(** A session is sound when the notification channel is closed only
    once the pty is: [Wait] closes the channel right after the pty. *)
Definition sound (e : Session) : Prop :=
  signal_closed e = true -> pty_closed e = true.

(** ** What the scanning loop is held against *)

(** The session as [ExpectAny] leaves it once the deadline is set:
    the first three statements of the method. *)
Definition effective (d : Duration) (e : Session) : Duration :=
  if d <? 0 then timeout e else d.

Definition armed (d : Duration) (e : Session) : Session :=
  let t := Add (now e) (effective d e) in
  if reader_closed e then log (EvSetReadDeadline t) e
  else log (EvSetReadDeadline t) (set_deadline t e).

(** The test the loop body makes on one line, as the design words it:
    the literal first, when one is supplied; then the regular
    expression, when one is supplied and what it finds is not
    empty. *)
Definition literal_hit (pattern text : string) : bool :=
  (0 <? len pattern) && Contains text pattern.

Definition regex_hit (re : option Regexp) (text : string) : option string :=
  match re with
  | Some r => if 0 <? len (FindString r text) then Some (FindString r text)
              else None
  | None => None
  end.

Definition first_test (pattern : string) (re : option Regexp) (text : string)
  : option string :=
  if literal_hit pattern text then Some pattern else regex_hit re text.

(** [delivers e ts e']: successive calls of [Scan] from [e] hand out
    the lines [ts], in that order, and leave the session [e']. *)
Inductive delivers : Session -> list string -> Session -> Prop :=
| delivers_nil : forall e, delivers e [] e
| delivers_cons : forall e e1 e2 ts,
    Scan e = Returns true e1 ->
    delivers e1 ts e2 ->
    delivers e (token e1 :: ts) e2.

(** The events a call added to the trace. *)
Definition since (e e' : Session) : list Event :=
  skipn (List.length (trace e)) (trace e').

(** What [e.reader.Close()] is about to answer. *)
Definition detach_answer (e : Session) : option error :=
  if reader_closed e then Some ErrClosed else reader_close_err e.

(** ** The pass-through reader *)

Module PipeThrough.

(** [errCh], as a receive sees it.  The goroutine started by
    [NewPipeThrough] sends one error once the copy is over and
    closes the channel; if the copy never ends nothing is ever
    sent, and if closing the pipe's write end fails the goroutine
    panics. *)
Inductive Chan : Type :=
| Holds (v : error)        (* one value to receive, then closed *)
| Drained                  (* closed and empty *)
| Never                    (* open and empty for ever *)
| Dead.                    (* the goroutine has panicked *)

(** [type PipeThrough struct]: the read end of the pipe (its
    deadline and whether it is closed) and the channel. *)
Record PipeThrough : Type := mk {
  rd_deadline : Time;
  rd_closed : bool;
  errCh : Chan
}.

(** [func NewPipeThrough(reader io.Reader)].  [pipe_err] is the
    answer of [os.Pipe]; [copy] is what [io.Copy(pipeWriter,
    reader)] comes to: [None] when it never returns, [Some None]
    when the reader ended cleanly, [Some (Some x)] when it failed
    with [x]; [close_err] is the answer of [pipeWriter.Close()]. *)
Definition NewPipeThrough (pipe_err : option error)
           (copy : option (option error)) (close_err : option error)
  : PipeThrough + error :=
  match pipe_err with
  | Some err => inr err
  | None =>
      let ch :=
        match copy with
        | None => Never
        | Some readerErr =>
            let readerErr :=
              match readerErr with None => EOF | Some x => x end in
            match close_err with
            | Some _ => Dead
            | None => Holds readerErr
            end
        end in
      inl {| rd_deadline := 0; rd_closed := false; errCh := ch |}
  end.

Inductive ReadOutcome : Type :=
| Read_returns (n : Z) (err : option error) (pt : PipeThrough)
| Read_blocks
| Read_panics.

(** [func (pt *PipeThrough) Read(p []byte) (n int, err error)];
    [ans] is what [pt.reader.Read(p)] answers this time. *)
Definition Read (ans : Z * option error) (pt : PipeThrough) : ReadOutcome :=
  let '(n, err) := ans in
  match err with
  | Some x =>
      if IsTimeout x then Read_returns n (Some x) pt
      else
        match errCh pt with
        | Holds perr =>
            Read_returns n (Some perr)
              {| rd_deadline := rd_deadline pt; rd_closed := rd_closed pt;
                 errCh := Drained |}
        | Drained => Read_returns n (Some x) pt
        | Never => Read_blocks
        | Dead => Read_panics
        end
  | None => Read_returns n None pt
  end.

(** [func (pt *PipeThrough) Close() error] *)
Definition Close (close_err : option error) (pt : PipeThrough)
  : option error * PipeThrough :=
  if rd_closed pt then (Some ErrClosed, pt)
  else (close_err,
        {| rd_deadline := rd_deadline pt; rd_closed := true;
           errCh := errCh pt |}).

(** [func (pt *PipeThrough) SetReadDeadline(t time.Time) error]: on
    a closed file the poller's error comes back as it is, which is
    not [os.ErrClosed]. *)
Definition SetReadDeadline (t : Time) (pt : PipeThrough)
  : option error * PipeThrough :=
  if rd_closed pt then (Some (ErrSys "use of closed file" false), pt)
  else (None,
        {| rd_deadline := t; rd_closed := rd_closed pt;
           errCh := errCh pt |}).

(** Successive calls of [Read], one for each answer of the pipe;
    [None] when one of them does not return. *)
Fixpoint Reads (answers : list (Z * option error)) (pt : PipeThrough)
  : option (list (Z * option error) * PipeThrough) :=
  match answers with
  | [] => Some ([], pt)
  | ans :: rest =>
      match Read ans pt with
      | Read_returns n err pt1 =>
          match Reads rest pt1 with
          | Some (rs, pt2) => Some ((n, err) :: rs, pt2)
          | None => None
          end
      | _ => None
      end
  end.

(** A read that fails, and not on the deadline. *)
Definition hard_failure (ans : Z * option error) : bool :=
  match snd ans with
  | Some x => negb (IsTimeout x)
  | None => false
  end.

End PipeThrough.

(** ** Sessions to run the methods on *)

(** [echo ready]: one line, then the child is gone. *)
Definition host_echo : Host :=
  {| h_now := 1000;
     h_start_err := None; h_raw_err := None; h_pipe_err := None;
     h_child_exit := Some 1600;
     h_pty_close_err := None;
     h_pty_hangup := Some 1600;
     h_restore_err := None;
     h_reader_close_err := None;
     h_lines := [(1500, "ready")];
     h_ending := Eof 1600;
     h_write_err := None |}.

(** A login dialogue: a banner, a prompt two seconds later, and a
    child that lives for ten seconds. *)
Definition host_login : Host :=
  {| h_now := 1000;
     h_start_err := None; h_raw_err := None; h_pipe_err := None;
     h_child_exit := Some (1000 + 10 * Second);
     h_pty_close_err := None;
     h_pty_hangup := Some (1000 + 10 * Second);
     h_restore_err := None;
     h_reader_close_err := None;
     h_lines := [(1200, "Welcome"); (1000 + 2 * Second, "password: ")];
     h_ending := Silent;
     h_write_err := None |}.

Definition started (r : Spawned) (default : Session) : Session :=
  match r with
  | Started e => e
  | _ => default
  end.

Definition no_session : Session :=
  mkSession "" [] 0 0 None true None None false None true 0 true None None ""
            (Some ErrClosed) [] Silent [] None.

Definition echo : Session :=
  started (Spawn "echo ready" Second host_echo) no_session.

Definition login : Session :=
  started (Spawn "ssh 127.0.0.1" (3 * Second) host_login) no_session.

(** Regular expressions to try: one that finds the first run of
    decimal digits, and one that finds nothing but the empty
    string. *)
Definition is_digit (c : ascii) : bool :=
  (48 <=? byte_val c) && (byte_val c <=? 57).

Fixpoint take_digits (s : string) : string :=
  match s with
  | String c rest => if is_digit c then String c (take_digits rest) else ""
  | EmptyString => ""
  end.

Fixpoint find_digits (s : string) : string :=
  match s with
  | String c rest => if is_digit c then take_digits s else find_digits rest
  | EmptyString => ""
  end.

Definition re_digits : Regexp := {| FindString := find_digits |}.

Definition re_empty : Regexp := {| FindString := fun _ => "" |}.

(** What [e.pty.Close()] is about to answer. *)
Definition close_answer (e : Session) : option error :=
  if pty_closed e then Some ErrClosed else pty_close_err e.

(** [cat]: a child that prints nothing and never exits. *)
Definition host_cat : Host :=
  {| h_now := 1000;
     h_start_err := None; h_raw_err := None; h_pipe_err := None;
     h_child_exit := None;
     h_pty_close_err := None;
     h_pty_hangup := None;
     h_restore_err := None;
     h_reader_close_err := None;
     h_lines := [];
     h_ending := Silent;
     h_write_err := None |}.

Definition cat : Session := started (Spawn "cat" Second host_cat) no_session.


(** What the scanner leaves alone: [Scan] moves the clock forward and
    changes the scanner's own state, nothing else. *)
Definition same_handles (e e1 : Session) : Prop :=
  timeout e1 = timeout e
  /\ child_exit e1 = child_exit e
  /\ pty_closed e1 = pty_closed e
  /\ pty_close_err e1 = pty_close_err e
  /\ pty_hangup e1 = pty_hangup e
  /\ raw e1 = raw e
  /\ restore_err e1 = restore_err e
  /\ signal_closed e1 = signal_closed e
  /\ deadline e1 = deadline e
  /\ reader_closed e1 = reader_closed e
  /\ reader_close_err e1 = reader_close_err e
  /\ ending e1 = ending e
  /\ trace e1 = trace e
  /\ now e <= now e1.

(** The stream has come to its end and the scanner has seen it, or
    is about to: nothing is pending, and either the scanner stopped
    on [io.EOF] already or the write end is closed before the deadline
    about to be set. *)
Definition stream_closed (d : Duration) (e : Session) : Prop :=
  lines e = []
  /\ (serr e = Some EOF
      \/ (serr e = None /\ reader_closed e = false /\ 0 < effective d e
          /\ exists a, ending e = Eof a /\ a < now e + effective d e)).

(** The error ExpectAny picks once the loop has fallen through. *)
Definition verdict (e : Session) : error :=
  match serr e with
  | Some EOF | None => New "command exit"
  | Some x => x
  end.

(** [echo] after a first [Expect("ready", -1)], and [login] after
    [ExpectAny("password:", nil, -1)]. *)
Definition after {A : Type} (o : Outcome A) : Session :=
  match o with
  | Returns _ e => e
  | _ => no_session
  end.

Definition echo_read : Session := after (Expect "ready" (-1) echo).

Definition login_prompted : Session :=
  after (ExpectAny "password:" None (-1) login).

(** A child whose only line is longer than the scanner's buffer: the
    scanner gives up with [bufio.ErrTooLong]. *)
Definition host_long_line : Host :=
  {| h_now := 1000;
     h_start_err := None; h_raw_err := None; h_pipe_err := None;
     h_child_exit := Some 3000;
     h_pty_close_err := None;
     h_pty_hangup := Some 3000;
     h_restore_err := None;
     h_reader_close_err := None;
     h_lines := [];
     h_ending := Fails 2000 ErrTooLong;
     h_write_err := None |}.

Definition long_line : Session :=
  started (Spawn "yes" Second host_long_line) no_session.

(** [login] as the loop of [ExpectAny("password:", nil, time.Second)]
    leaves it: the prompt comes a second too late. *)
Definition login_timed_out : Session :=
  after (scan_loop 3 "password:" None (armed Second login)).

(** [echo_read] as the loop of a second [Expect("ready", -1)] leaves
    it: the scanner has come to the end of the stream. *)
Definition echo_ended : Session :=
  after (scan_loop 1 "ready" None (armed (-1) echo_read)).

(** A terminal that cannot be put back into its old mode. *)
Definition host_stuck_terminal : Host :=
  {| h_now := 1000;
     h_start_err := None; h_raw_err := None; h_pipe_err := None;
     h_child_exit := Some 2000;
     h_pty_close_err := None;
     h_pty_hangup := Some 2000;
     h_restore_err := Some (ErrSys "inappropriate ioctl for device" false);
     h_reader_close_err := None;
     h_lines := [];
     h_ending := Eof 2000;
     h_write_err := None |}.

Definition stuck_terminal : Session :=
  started (Spawn "true" Second host_stuck_terminal) no_session.

(** A pty whose close fails. *)
Definition host_stuck_pty : Host :=
  {| h_now := 1000;
     h_start_err := None; h_raw_err := None; h_pipe_err := None;
     h_child_exit := Some 2000;
     h_pty_close_err := Some (ErrSys "input/output error" false);
     h_pty_hangup := Some 2000;
     h_restore_err := None;
     h_reader_close_err := None;
     h_lines := [];
     h_ending := Eof 2000;
     h_write_err := None |}.

Definition stuck_pty : Session :=
  started (Spawn "true" Second host_stuck_pty) no_session.

(** ** The earlier version of the engine

    The file keeps, beside the current methods, the version they
    replaced.  Its loop is the same; what differs is what follows the
    loop: no call of Wait, and the error "unknown error" where the
    current version says "command exit". *)
Module Legacy.

(** [func (e *Expect) ExpectAny(pattern string, re *regexp.Regexp,
    timeout time.Duration) (string, error)], earlier version *)
Definition ExpectAny (pattern : string) (re : option Regexp)
           (timeout : Duration) : M (string * option error) :=
  timeout <- (if timeout <? 0 then get_timeout else ret timeout) ;;
  t <- time_Now ;;
  reader_SetReadDeadline (Add t timeout) ;;;
  found <- (fun e => scan_loop (S (List.length (lines e))) pattern re e) ;;
  match found with
  | Some matched => ret (matched, None)
  | None =>
      err <- Err ;;
      match err with
      | Some x => ret ("", Some x)
      | None => ret ("", Some (New "unknown error"))
      end
  end.

(** [func (e *Expect) Expect(pattern string, timeout time.Duration)
    (bool, error)], earlier version *)
Definition Expect (pattern : string) (timeout : Duration)
  : M (bool * option error) :=
  r <- ExpectAny pattern None timeout ;;
  ret (negb (String.eqb (fst r) ""), snd r).

(** [func (e *Expect) ExpectRe(re *regexp.Regexp, timeout
    time.Duration) (string, error)], earlier version *)
Definition ExpectRe (re : option Regexp) (timeout : Duration)
  : M (string * option error) :=
  ExpectAny "" re timeout.

(** [func (e *Expect) Interact(re *regexp.Regexp, timeout
    time.Duration) error], earlier version: the arguments are not
    used. *)
Definition Interact (re : option Regexp) (timeout : Duration)
  : M (option error) :=
  err <- reader_Close ;;
  match err with
  | Some x => ret (Some x)
  | None =>
      copy_pty_to_Stdout ;;;
      ret None
  end.

(** The error the earlier ExpectAny picks once the loop has fallen
    through. *)
Definition verdict (e : Session) : error :=
  match serr e with
  | Some EOF | None => New "unknown error"
  | Some x => x
  end.

End Legacy.

(** ** More sessions to run the methods on *)

(** [login] after [ExpectAny("password:", nil, time.Second)] has
    failed on the deadline, after [Interact], and [echo] after
    [Wait]. *)
Definition login_failed : Session :=
  after (ExpectAny "password:" None Second login).

Definition login_detached : Session := after (Interact login).

Definition echo_waited : Session := after (Wait echo).

(** [login] once the earlier ExpectAny has failed on the deadline. *)
Definition login_failed_legacy : Session :=
  after (Legacy.ExpectAny "password:" None Second login).

(** [echo_read] some time later, well after the child has closed
    the stream. *)
Definition echo_closed : Session := set_now 5000 echo_read.

(** The sessions a program can get to: what Spawn answers, and what
    the methods leave when they return, with time passing in
    between. *)
Inductive reachable : Session -> Prop :=
| reach_Spawn : forall command t h e,
    Spawn command t h = Started e -> reachable e
| reach_later : forall e t,
    reachable e -> now e <= t -> reachable (set_now t e)
| reach_Wait : forall e r e',
    reachable e -> Wait e = Returns r e' -> reachable e'
| reach_Interact : forall e r e',
    reachable e -> Interact e = Returns r e' -> reachable e'
| reach_ExpectAny : forall e pattern re d r e',
    reachable e -> ExpectAny pattern re d e = Returns r e' -> reachable e'
| reach_Expect : forall e pattern d r e',
    reachable e -> Expect pattern d e = Returns r e' -> reachable e'
| reach_ExpectRe : forall e re d r e',
    reachable e -> ExpectRe re d e = Returns r e' -> reachable e'
| reach_Write : forall e b r e',
    reachable e -> Write b e = Returns r e' -> reachable e'
| reach_Send : forall e s r e',
    reachable e -> Send s e = Returns r e' -> reachable e'
| reach_SendLine : forall e s r e',
    reachable e -> SendLine s e = Returns r e' -> reachable e'.

(** What every session keeps, as shown below: a default timeout of at
    least a nanosecond, a terminal that is raw unless the
    notification channel is closed, and a channel that is open
    unless the pty is closed. *)
Definition kept (e : Session) : Prop :=
  1 <= timeout e
  /\ (raw e = false -> signal_closed e = true)
  /\ (signal_closed e = true -> pty_closed e = true).

(** * Properties *)

(** ** Fields and Spawn *)

Example Fields_ssh : Fields "ssh  127.0.0.1 " = ["ssh"; "127.0.0.1"].
Proof. reflexivity. Qed.

Example Fields_blank : Fields (String " " (String (ascii_of_nat 9) " ")) = [].
Proof. reflexivity. Qed.

(** U+3000 (ideographic space, bytes E3 80 80) separates fields too. *)
Example Fields_wide :
  Fields (String "a" (String (ascii_of_nat 227) (String (ascii_of_nat 128)
           (String (ascii_of_nat 128) "b")))) = ["a"; "b"].
Proof. reflexivity. Qed.

Lemma fields_of_open_nonempty (f : Z -> bool) (rs : list (Z * string)) :
  forall cur, fields_of f rs (Some cur) <> [].
Proof.
  induction rs as [|[r bytes] rest IH]; intros cur; simpl.
  - discriminate.
  - destruct (f r); [discriminate | apply IH].
Qed.

Lemma fields_of_nil_iff (f : Z -> bool) (rs : list (Z * string)) :
  fields_of f rs None = [] <-> forallb (fun p => f (fst p)) rs = true.
Proof.
  induction rs as [|[r bytes] rest IH]; simpl.
  - split; reflexivity.
  - destruct (f r) eqn:Hr; simpl.
    + exact IH.
    + split; [intros H | discriminate].
      exfalso. exact (fields_of_open_nonempty f rest bytes H).
Qed.

(** [strings.Fields] answers no field exactly on the strings made of
    white space only (the empty one among them). *)
Lemma Fields_nil_iff (s : string) : Fields s = [] <-> only_space s = true.
Proof. unfold Fields, FieldsFunc, only_space. apply fields_of_nil_iff. Qed.

Lemma len_zero_iff (s : string) : (len s =? 0) = true <-> s = "".
Proof.
  unfold len. destruct s as [|c s]; simpl.
  - split; reflexivity.
  - split; discriminate.
Qed.

(** C6: Spawn with the empty command answers the error "invalid
    command" and no session, whatever the timeout and the host; and a
    timeout that is not positive is replaced by the default of sixty
    seconds before anything else is done with it, so that a session
    that is produced stores the default. *)
Theorem Spawn_empty_command_and_default_timeout
        (command : string) (t : Duration) (h : Host) :
  Spawn "" t h = Failed (New "invalid command")
  /\ DefaultTimeout = 60 * 1000000000
  /\ (t <= 0 ->
      Spawn command t h = Spawn command DefaultTimeout h
      /\ forall e, Spawn command t h = Started e -> timeout e = DefaultTimeout).
Proof.
  split; [reflexivity | split; [reflexivity |]].
  intros Ht.
  assert (Hlt : (t <? 1) = true) by (apply Z.ltb_lt; lia).
  assert (Heq : Spawn command t h = Spawn command DefaultTimeout h).
  { unfold Spawn. rewrite Hlt. reflexivity. }
  split; [exact Heq |].
  intros e He. rewrite Heq in He. unfold Spawn in He.
  destruct (len command =? 0); [discriminate |].
  destruct (Fields command); [discriminate |].
  destruct (h_start_err h); [discriminate |].
  destruct (h_raw_err h); [discriminate |].
  destruct (h_pipe_err h); [discriminate |].
  injection He as <-. reflexivity.
Qed.

Lemma Spawn_empty_command_and_default_timeout_witness :
  -5 <= 0
  /\ Spawn "echo ready" (-5) host_echo = Started (started (Spawn "echo ready" (-5) host_echo) no_session)
  /\ timeout (started (Spawn "echo ready" (-5) host_echo) no_session) = 60000000000.
Proof.
  split; [lia |]. split; [reflexivity |].
  refine (proj2 (proj2 (proj2 (Spawn_empty_command_and_default_timeout
                                 "echo ready" (-5) host_echo)) _) _ _).
  - lia.
  - reflexivity.
Defined.

(** A positive timeout is stored as it is. *)
Lemma Spawn_keeps_positive_timeout (command : string) (t : Duration)
      (h : Host) (e : Session) :
  0 < t -> Spawn command t h = Started e -> timeout e = t.
Proof.
  intros Ht He. unfold Spawn in He.
  destruct (len command =? 0); [discriminate |].
  assert (Hlt : (t <? 1) = false) by (apply Z.ltb_ge; lia).
  rewrite Hlt in He.
  destruct (Fields command); [discriminate |].
  destruct (h_start_err h); [discriminate |].
  destruct (h_raw_err h); [discriminate |].
  destruct (h_pipe_err h); [discriminate |].
  injection He as <-. reflexivity.
Qed.

(** C9: a command that is not empty but holds white space only passes
    the length check of Spawn, splits into no field at all, and the
    unguarded [commands[0]] then panics: Spawn answers neither a
    session nor an error on it. *)
Theorem Spawn_blank_command_crashes
        (command : string) (t : Duration) (h : Host) :
  command <> "" ->
  only_space command = true ->
  (len command =? 0) = false
  /\ Fields command = []
  /\ Spawn command t h = Crashed "index out of range [0] with length 0".
Proof.
  intros Hne Hsp.
  assert (Hlen : (len command =? 0) = false).
  { destruct (len command =? 0) eqn:E; [| reflexivity].
    apply len_zero_iff in E. contradiction. }
  assert (Hf : Fields command = []) by (apply Fields_nil_iff; exact Hsp).
  repeat split; try assumption.
  unfold Spawn. rewrite Hlen, Hf. reflexivity.
Qed.

Lemma Spawn_blank_command_crashes_witness :
  Spawn (String " " (String (ascii_of_nat 9) " ")) Second host_echo
  = Crashed "index out of range [0] with length 0".
Proof.
  refine (proj2 (proj2 (Spawn_blank_command_crashes
                          (String " " (String (ascii_of_nat 9) " "))
                          Second host_echo _ _))).
  - discriminate.
  - reflexivity.
Defined.

(** X3: the index is in range on every other command: Spawn panics on the
    blank commands only. *)
Lemma Spawn_crashes_only_on_blank (command : string) (t : Duration)
      (h : Host) (msg : string) :
  Spawn command t h = Crashed msg ->
  command <> "" /\ only_space command = true.
Proof.
  unfold Spawn. intros H.
  destruct (len command =? 0) eqn:Hl; [discriminate |].
  split.
  - intros ->. discriminate.
  - apply Fields_nil_iff.
    destruct (Fields command); [reflexivity |].
    destruct (h_start_err h); [discriminate |].
    destruct (h_raw_err h); [discriminate |].
    destruct (h_pipe_err h); discriminate.
Qed.

(** A session fresh from Spawn is sound: nothing is closed yet, no
    deadline is set and the scanner has read nothing. *)
Lemma Spawn_fresh (command : string) (t : Duration) (h : Host)
      (e : Session) :
  Spawn command t h = Started e ->
  sound e
  /\ pty_closed e = false /\ reader_closed e = false
  /\ raw e = true /\ deadline e = 0
  /\ serr e = None /\ fetched e = None /\ trace e = []
  /\ 1 <= timeout e.
Proof.
  unfold Spawn. intros H.
  destruct (len command =? 0); [discriminate |].
  destruct (Fields command); [discriminate |].
  destruct (h_start_err h); [discriminate |].
  destruct (h_raw_err h); [discriminate |].
  destruct (h_pipe_err h); [discriminate |].
  injection H as <-. unfold sound. simpl.
  repeat split; try reflexivity; try discriminate.
  destruct (t <? 1) eqn:Ht.
  - unfold DefaultTimeout, Second. lia.
  - apply Z.ltb_ge in Ht. exact Ht.
Qed.

(** U+00A0 (no-break space, bytes C2 A0) is white space; a byte that
    starts no rune decodes to the replacement rune, which is not. *)
Example DecodeRune_nbsp :
  DecodeRuneInString (String (ascii_of_nat 194) (String (ascii_of_nat 160) "x"))
  = (160, 2%nat).
Proof. reflexivity. Qed.

Example Fields_invalid_byte :
  Fields (String " " (String (ascii_of_nat 255) " "))
  = [String (ascii_of_nat 255) ""].
Proof. reflexivity. Qed.

(** ** Wait and Interact *)

Lemma since_app (e e' : Session) (evs : list Event) :
  trace e' = trace e ++ evs -> since e e' = evs.
Proof.
  intros H. unfold since. rewrite H.
  rewrite skipn_app, skipn_all, Nat.sub_diag. reflexivity.
Qed.

Ltac run_Wait :=
  unfold Wait, bind, ret, cmd_Wait, pty_Close, signal_Stop, close_signalCh,
    term_Restore.

Ltac trace_since :=
  apply since_app; unfold log; simpl; rewrite <- ?app_assoc; reflexivity.

(** Wait does not return before the child has exited. *)
Lemma Wait_blocks (e : Session) : child_exit e = None -> Wait e = Blocks.
Proof. intros H. run_Wait. rewrite H. reflexivity. Qed.

(** When the pty does not close, Wait answers the error of the close
    and stops there. *)
Lemma Wait_close_fails (e : Session) (x : Time) (y : error) :
  child_exit e = Some x -> close_answer e = Some y ->
  exists e', Wait e = Returns (Some y) e'
    /\ since e e' = [EvCmdWait; EvPtyClose (Some y)]
    /\ now e' = Z.max (now e) x
    /\ raw e' = raw e /\ signal_closed e' = signal_closed e
    /\ pty_closed e' = true /\ serr e' = serr e
    /\ child_exit e' = child_exit e.
Proof.
  intros Hx Hc. unfold close_answer in Hc. run_Wait. rewrite Hx. simpl.
  destruct (pty_closed e) eqn:Hp.
  - injection Hc as <-. eexists. split; [reflexivity |].
    repeat split; try assumption; try reflexivity. trace_since.
  - rewrite Hc. eexists. split; [reflexivity |].
    repeat split; try assumption; try reflexivity. trace_since.
Qed.

(** When the pty closes, Wait goes on to the channel and the terminal
    mode, and answers what the restoration answers. *)
Lemma Wait_close_succeeds (e : Session) (x : Time) :
  child_exit e = Some x -> close_answer e = None -> signal_closed e = false ->
  exists e', Wait e = Returns (restore_err e) e'
    /\ since e e' = [EvCmdWait; EvPtyClose None; EvSignalStop;
                     EvCloseSignalCh; EvTermRestore (restore_err e)]
    /\ now e' = Z.max (now e) x
    /\ raw e' = match restore_err e with Some _ => raw e | None => false end
    /\ signal_closed e' = true
    /\ pty_closed e' = true /\ serr e' = serr e
    /\ child_exit e' = child_exit e.
Proof.
  intros Hx Hc Hs. unfold close_answer in Hc. run_Wait. rewrite Hx. simpl.
  destruct (pty_closed e) eqn:Hp; [discriminate |].
  rewrite Hc. simpl. rewrite Hs. simpl.
  destruct (restore_err e) as [z|] eqn:Hr; simpl;
    (eexists; split; [reflexivity |]);
    repeat split; try assumption; try reflexivity; rewrite ?Hr;
    try reflexivity; trace_since.
Qed.

Lemma sound_open (e : Session) :
  sound e -> close_answer e = None -> signal_closed e = false.
Proof.
  unfold sound, close_answer. intros Hs Hc.
  destruct (signal_closed e); [| reflexivity].
  rewrite (Hs eq_refl) in Hc. discriminate.
Qed.

(** On a sound session whose child exits, Wait returns, and leaves the
    session sound. *)
Lemma Wait_returns (e : Session) (x : Time) :
  sound e -> child_exit e = Some x ->
  exists r e', Wait e = Returns r e'
    /\ (exists c tl, since e e' = EvCmdWait :: EvPtyClose c :: tl)
    /\ pty_closed e' = true /\ serr e' = serr e /\ sound e'
    /\ now e' = Z.max (now e) x.
Proof.
  intros Hs Hx. destruct (close_answer e) as [y|] eqn:Hc.
  - destruct (Wait_close_fails e x y Hx Hc)
      as (e' & HW & Hev & Hn & _ & _ & Hp & He & _).
    exists (Some y), e'. repeat split; try assumption.
    + eauto.
    + intros _. exact Hp.
  - destruct (Wait_close_succeeds e x Hx Hc (sound_open e Hs Hc))
      as (e' & HW & Hev & Hn & _ & _ & Hp & He & _).
    exists (restore_err e), e'. repeat split; try assumption.
    + eauto.
    + intros _. exact Hp.
Qed.

(** What Wait leaves behind whenever it returns. *)
Lemma Wait_inv (e e' : Session) (r : option error) :
  Wait e = Returns r e' ->
  exists x,
    child_exit e = Some x
    /\ serr e' = serr e
    /\ pty_closed e' = true
    /\ now e' = Z.max (now e) x
    /\ exists tl, since e e' = EvCmdWait :: EvPtyClose (close_answer e) :: tl.
Proof.
  intros HW.
  destruct (child_exit e) as [x|] eqn:Hx;
    [| rewrite (Wait_blocks e Hx) in HW; discriminate].
  exists x. split; [reflexivity |].
  destruct (close_answer e) as [y|] eqn:Hc.
  - destruct (Wait_close_fails e x y Hx Hc)
      as (e1 & HW1 & Hev & Hn & _ & _ & Hp & He & _).
    rewrite HW1 in HW. injection HW as _ <-.
    repeat split; try assumption. eauto.
  - destruct (signal_closed e) eqn:Hsig.
    + exfalso. revert HW. unfold close_answer in Hc. run_Wait.
      rewrite Hx. simpl.
      destruct (pty_closed e); [discriminate |]. rewrite Hc. simpl.
      rewrite Hsig. discriminate.
    + destruct (Wait_close_succeeds e x Hx Hc Hsig)
        as (e1 & HW1 & Hev & Hn & _ & _ & Hp & He & _).
      rewrite HW1 in HW. injection HW as _ <-.
      repeat split; try assumption. eauto.
Qed.

(** Wait does not panic on a sound session: the channel is closed
    once. *)
Lemma Wait_never_panics (e : Session) (msg : string) :
  sound e -> Wait e <> Panics msg.
Proof.
  intros Hs H. destruct (child_exit e) as [x|] eqn:Hx.
  - destruct (Wait_returns e x Hs Hx) as (r & e' & HW & _).
    rewrite HW in H. discriminate.
  - rewrite (Wait_blocks e Hx) in H. discriminate.
Qed.

Lemma Wait_sound (e e' : Session) (r : option error) :
  sound e -> Wait e = Returns r e' -> sound e'.
Proof.
  intros Hs HW. destruct (Wait_inv e e' r HW) as (x & Hx & _).
  destruct (Wait_returns e x Hs Hx) as (r1 & e1 & HW1 & _ & _ & _ & Hs1 & _).
  rewrite HW1 in HW. injection HW as _ <-. exact Hs1.
Qed.

(** C7, as the code has it: Wait first waits for the child to exit
    (and does not return while the child lives); only then does it
    touch the pty, the channel and the terminal.  A failed close of
    the pty is what Wait answers, and nothing after it is done: the
    terminal mode is left as it was.  A failed restoration, which is
    only tried after the pty did close, is what Wait answers then.
    So the partial teardown that can happen is the pty closed and the
    mode not restored. *)
Theorem Wait_exit_detection_then_teardown (e : Session) :
  sound e ->
  match child_exit e with
  | None => Wait e = Blocks
  | Some x =>
      exists r e',
        Wait e = Returns r e'
        /\ x <= now e'
        /\ (exists tl, since e e' = EvCmdWait :: EvPtyClose (close_answer e) :: tl
                       /\ ~ In EvCmdWait tl)
        /\ match close_answer e with
           | Some y =>
               r = Some y
               /\ since e e' = [EvCmdWait; EvPtyClose (Some y)]
               /\ raw e' = raw e
           | None =>
               r = restore_err e
               /\ since e e' = [EvCmdWait; EvPtyClose None; EvSignalStop;
                                EvCloseSignalCh; EvTermRestore (restore_err e)]
               /\ pty_closed e' = true
               /\ raw e' = match restore_err e with
                           | Some _ => raw e
                           | None => false
                           end
           end
  end.
Proof.
  intros Hs. destruct (child_exit e) as [x|] eqn:Hx; [| apply Wait_blocks, Hx].
  destruct (close_answer e) as [y|] eqn:Hc.
  - destruct (Wait_close_fails e x y Hx Hc)
      as (e' & HW & Hev & Hn & Hr & _).
    exists (Some y), e'. split; [exact HW |]. split; [lia |].
    split.
    + exists []. split; [exact Hev | intros []].
    + repeat split; assumption.
  - destruct (Wait_close_succeeds e x Hx Hc (sound_open e Hs Hc))
      as (e' & HW & Hev & Hn & Hr & _ & Hp & _).
    exists (restore_err e), e'. split; [exact HW |]. split; [lia |].
    split.
    + eexists. split; [exact Hev |].
      simpl. intros [H | [H | [H | H]]]; try discriminate H. exact H.
    + repeat split; assumption.
Qed.

Lemma sound_echo : sound echo.
Proof. unfold sound. simpl. discriminate. Qed.

Lemma Wait_exit_detection_then_teardown_witness :
  exists r e', Wait echo = Returns r e' /\ 1600 <= now e' /\ raw e' = false.
Proof.
  destruct (Wait_exit_detection_then_teardown echo sound_echo)
    as (r & e' & HW & Hn & _ & _ & _ & _ & Hr).
  exists r, e'. repeat split; assumption.
Defined.

(** The mode restored although the close of the pty failed: no call
    of Wait, on any session, ends that way. *)
Lemma Wait_restored_but_close_failed_impossible :
  ~ exists (e : Session) (r : option error) (e' : Session) (y : error),
      Wait e = Returns r e'
      /\ In (EvPtyClose (Some y)) (since e e')
      /\ In (EvTermRestore None) (since e e').
Proof.
  intros (e & r & e' & y & HW & Hclose & Hrest).
  destruct (child_exit e) as [x|] eqn:Hx;
    [| rewrite (Wait_blocks e Hx) in HW; discriminate].
  destruct (close_answer e) as [z|] eqn:Hc.
  - destruct (Wait_close_fails e x z Hx Hc) as (e1 & HW1 & Hev & _).
    rewrite HW1 in HW. injection HW as _ <-.
    rewrite Hev in Hrest. simpl in Hrest.
    destruct Hrest as [H | [H | []]]; discriminate H.
  - destruct (signal_closed e) eqn:Hsig.
    + revert HW. unfold close_answer in Hc. run_Wait. rewrite Hx. simpl.
      destruct (pty_closed e); [discriminate |]. rewrite Hc. simpl.
      rewrite Hsig. discriminate.
    + destruct (Wait_close_succeeds e x Hx Hc Hsig) as (e1 & HW1 & Hev & _).
      rewrite HW1 in HW. injection HW as _ <-.
      rewrite Hev in Hclose. simpl in Hclose.
      destruct Hclose as [H | [H | [H | [H | [H | []]]]]]; discriminate H.
Qed.

(** The partial teardown that does happen: the pty closed and the
    terminal still raw, when the restoration fails; and when it is
    the close that fails, nothing after it is tried. *)
Example Wait_partial_teardown :
  (exists e',
      Wait stuck_terminal
      = Returns (Some (ErrSys "inappropriate ioctl for device" false)) e'
      /\ pty_closed e' = true /\ raw e' = true)
  /\ (exists e',
        Wait stuck_pty = Returns (Some (ErrSys "input/output error" false)) e'
        /\ since stuck_pty e'
           = [EvCmdWait; EvPtyClose (Some (ErrSys "input/output error" false))]
        /\ raw e' = true).
Proof.
  split; eexists; (split; [vm_compute; reflexivity |]);
    vm_compute; repeat split.
Qed.

(** Once the pty is closed, be it with an error, every later Wait
    stops at the close: the terminal mode can no longer be restored
    through Wait. *)
Lemma Wait_after_close (e : Session) (x : Time) :
  child_exit e = Some x -> pty_closed e = true ->
  exists e', Wait e = Returns (Some ErrClosed) e'
    /\ raw e' = raw e /\ pty_closed e' = true.
Proof.
  intros Hx Hp.
  assert (Hc : close_answer e = Some ErrClosed)
    by (unfold close_answer; rewrite Hp; reflexivity).
  destruct (Wait_close_fails e x ErrClosed Hx Hc)
    as (e' & HW & _ & _ & Hr & _ & Hp' & _).
  exists e'. repeat split; assumption.
Qed.


(** ** The scanner *)

Lemma same_handles_refl (e : Session) : same_handles e e.
Proof. unfold same_handles. repeat split; reflexivity. Qed.

Lemma same_handles_trans (e e1 e2 : Session) :
  same_handles e e1 -> same_handles e1 e2 -> same_handles e e2.
Proof.
  unfold same_handles. intros H1 H2.
  repeat match goal with H : _ /\ _ |- _ => destruct H end.
  repeat split; try congruence; lia.
Qed.

(** A read does not come back before it was made. *)
Lemma pipe_Read_time (a : option Time) (e : Session) (t : Time)
      (o : option error) :
  pipe_Read a e = Some (t, o) -> now e <= t.
Proof.
  unfold pipe_Read. intros H.
  repeat match type of H with
         | context [match ?x with _ => _ end] => destruct x
         | context [if ?x then _ else _] => destruct x
         end;
    try discriminate H; injection H as <- _; lia.
Qed.

(** Splits [Scan e = o] into the cases of the definition. *)
Ltac scan_cases H :=
  unfold Scan, stop_at in H;
  repeat match type of H with
         | context [match ?x with _ => _ end] =>
             let E := fresh "E" in destruct x eqn:E
         | context [if ?x then _ else _] =>
             let E := fresh "E" in destruct x eqn:E
         end;
  try discriminate H.

Lemma Scan_same_handles (e e1 : Session) (ok : bool) :
  Scan e = Returns ok e1 -> same_handles e e1.
Proof.
  intros H. scan_cases H;
    injection H as <- <-; unfold same_handles; simpl;
    repeat split; try reflexivity; try lia;
    eapply pipe_Read_time; eassumption.
Qed.

Lemma Scan_never_panics (e : Session) (msg : string) : Scan e <> Panics msg.
Proof. intros H. scan_cases H. Qed.

(** A line handed out is the first one pending, and the scanner had
    not stopped. *)
Lemma Scan_true (e e1 : Session) :
  Scan e = Returns true e1 ->
  serr e = None /\ serr e1 = None
  /\ exists a, lines e = (a, token e1) :: lines e1.
Proof.
  intros H. scan_cases H; try (injection H as H _; discriminate H);
    injection H as <-; simpl; repeat split; try assumption; eauto.
Qed.

(** When Scan answers false the scanner has stopped on an error, and
    no line was taken. *)
Lemma Scan_false (e e1 : Session) :
  Scan e = Returns false e1 ->
  (exists err, serr e1 = Some err) /\ lines e1 = lines e.
Proof.
  intros H. scan_cases H; try (injection H as H _; discriminate H);
    injection H as <-; simpl; split; eauto.
Qed.

(** A stopped scanner stays stopped. *)
Lemma Scan_sticky (e : Session) (err : error) :
  serr e = Some err -> Scan e = Returns false e.
Proof. intros H. unfold Scan. rewrite H. reflexivity. Qed.

(** A read under a deadline, or on a closed file, comes back. *)
Lemma Scan_returns (e : Session) :
  IsZero (deadline e) = false \/ reader_closed e = true ->
  exists ok e1, Scan e = Returns ok e1.
Proof.
  intros H. unfold Scan, pipe_Read.
  destruct (serr e); [eauto |].
  destruct (reader_closed e) eqn:Hc.
  - destruct (lines e) as [|[a text] rest]; [destruct (ending e) | destruct (buffered a e)]; eauto.
  - destruct H as [H | H]; [| discriminate]. rewrite H.
    destruct (lines e) as [|[a text] rest].
    + destruct (ending e); try destruct (Z.max (now e) at_ <? deadline e); eauto.
    + destruct (buffered a e); [eauto |].
      destruct (Z.max (now e) a <? deadline e); eauto.
Qed.

(** *** The loop of ExpectAny

    The pattern and the regular expression stay the same all through
    a call. *)
Section Loop.

Variable pattern : string.
Variable re : option Regexp.

(** One turn of the loop: the body is the test [first_test] on the
    line just scanned. *)
Lemma scan_loop_unfold (n : nat) (e : Session) :
  scan_loop (S n) pattern re e =
  match Scan e with
  | Returns true e1 =>
      match first_test pattern re (token e1) with
      | Some m => Returns (Some m) e1
      | None => scan_loop n pattern re e1
      end
  | Returns false e1 => Returns None e1
  | Blocks => Blocks
  | Panics msg => Panics msg
  end.
Proof.
  simpl. unfold bind at 1. destruct (Scan e) as [[|] e1| |]; try reflexivity.
  unfold bind, Text, ret, first_test, literal_hit, regex_hit.
  destruct ((0 <? len pattern) && Contains (token e1) pattern); [reflexivity |].
  destruct re as [r|]; [| reflexivity].
  destruct (0 <? len (FindString r (token e1))); reflexivity.
Qed.

Lemma scan_loop_same_handles (n : nat) :
  forall (e e1 : Session) (r : option string),
    scan_loop n pattern re e = Returns r e1 -> same_handles e e1.
Proof.
  induction n as [|n IH]; intros e e1 r H; [discriminate |].
  rewrite scan_loop_unfold in H.
  destruct (Scan e) as [[|] e0| |] eqn:HS; try discriminate.
  - apply Scan_same_handles in HS.
    destruct (first_test pattern re (token e0)).
    + injection H as _ <-. exact HS.
    + eapply same_handles_trans; [exact HS | eapply IH; exact H].
  - apply Scan_same_handles in HS. injection H as _ <-. exact HS.
Qed.

(** With one unit of fuel more than there are lines the loop never
    runs out of it: it does not panic. *)
Lemma scan_loop_never_panics (n : nat) :
  forall (e : Session) (msg : string),
    (List.length (lines e) < n)%nat ->
    scan_loop n pattern re e <> Panics msg.
Proof.
  induction n as [|n IH]; intros e msg Hn; [lia |].
  rewrite scan_loop_unfold.
  destruct (Scan e) as [[|] e0| |] eqn:HS; try discriminate.
  - destruct (first_test pattern re (token e0)); [discriminate |].
    apply IH. apply Scan_true in HS. destruct HS as (_ & _ & a & Hl).
    rewrite Hl in Hn. simpl in Hn. lia.
  - exfalso. exact (Scan_never_panics e _ HS).
Qed.

(** More fuel than that changes nothing. *)
Lemma scan_loop_fuel (n : nat) :
  forall (m : nat) (e : Session),
    (List.length (lines e) < n)%nat -> (List.length (lines e) < m)%nat ->
    scan_loop n pattern re e = scan_loop m pattern re e.
Proof.
  induction n as [|n IH]; intros m e Hn Hm; [lia |].
  destruct m as [|m]; [lia |].
  rewrite !scan_loop_unfold.
  destruct (Scan e) as [[|] e0| |] eqn:HS; try reflexivity.
  destruct (first_test pattern re (token e0)); [reflexivity |].
  apply Scan_true in HS. destruct HS as (_ & _ & a & Hl).
  rewrite Hl in Hn, Hm. simpl in Hn, Hm. apply IH; lia.
Qed.

(** Under a deadline, or on a closed reader, the loop comes to an
    end. *)
Lemma scan_loop_returns (n : nat) :
  forall e : Session,
    (List.length (lines e) < n)%nat ->
    IsZero (deadline e) = false \/ reader_closed e = true ->
    exists r e1, scan_loop n pattern re e = Returns r e1.
Proof.
  induction n as [|n IH]; intros e Hn Hd; [lia |].
  rewrite scan_loop_unfold.
  destruct (Scan_returns e Hd) as (ok & e0 & HS). rewrite HS.
  destruct ok; [| eauto].
  destruct (first_test pattern re (token e0)); [eauto |].
  pose proof (Scan_same_handles _ _ _ HS) as Hf.
  apply Scan_true in HS. destruct HS as (_ & _ & a & Hl).
  apply IH.
  - rewrite Hl in Hn. simpl in Hn. lia.
  - unfold same_handles in Hf.
    destruct Hf as (_ & _ & _ & _ & _ & _ & _ & _ & Hdl & Hrc & _).
    rewrite Hdl, Hrc. exact Hd.
Qed.

(** What the loop answers and what it leaves when it stops. *)
Lemma scan_loop_result (n : nat) :
  forall (e e1 : Session) (r : option string),
    scan_loop n pattern re e = Returns r e1 ->
    match r with
    | Some m => serr e1 = None
    | None => exists err, serr e1 = Some err
    end.
Proof.
  induction n as [|n IH]; intros e e1 r H; [discriminate |].
  rewrite scan_loop_unfold in H.
  destruct (Scan e) as [[|] e0| |] eqn:HS; try discriminate.
  - destruct (first_test pattern re (token e0)) eqn:Ht.
    + injection H as <- <-. apply Scan_true in HS. tauto.
    + eapply IH. exact H.
  - injection H as <- <-. apply Scan_false in HS. tauto.
Qed.

(** The lines handed out are the first lines pending, in their
    order. *)
Lemma delivers_prefix (e e' : Session) (ts : list string) :
  delivers e ts e' ->
  exists pre, lines e = pre ++ lines e' /\ map snd pre = ts.
Proof.
  induction 1 as [e | e e1 e2 ts HS _ IH].
  - exists []. split; reflexivity.
  - destruct IH as (pre & Hl & Hm).
    apply Scan_true in HS. destruct HS as (_ & _ & a & Ha).
    exists ((a, token e1) :: pre). split.
    + rewrite Ha, Hl. reflexivity.
    + simpl. rewrite Hm. reflexivity.
Qed.

Lemma scan_loop_matched (n : nat) :
  forall (e e' : Session) (m : string),
    scan_loop n pattern re e = Returns (Some m) e' ->
    exists ts e0,
      delivers e ts e0
      /\ Forall (fun t => first_test pattern re t = None) ts
      /\ Scan e0 = Returns true e'
      /\ first_test pattern re (token e') = Some m.
Proof.
  induction n as [|n IH]; intros e e' m H; [discriminate |].
  rewrite scan_loop_unfold in H.
  destruct (Scan e) as [[|] e1| |] eqn:HS; try discriminate.
  destruct (first_test pattern re (token e1)) as [m1|] eqn:Ht.
  - injection H as <- <-. exists [], e.
    repeat split; try assumption; constructor.
  - destruct (IH _ _ _ H) as (ts & e0 & Hd & Hall & HS0 & Hm).
    exists (token e1 :: ts), e0. repeat split; try assumption.
    + econstructor; eassumption.
    + constructor; assumption.
Qed.

Lemma scan_loop_stopped (n : nat) :
  forall e e' : Session,
    scan_loop n pattern re e = Returns None e' ->
    exists ts e0,
      delivers e ts e0
      /\ Forall (fun t => first_test pattern re t = None) ts
      /\ Scan e0 = Returns false e'.
Proof.
  induction n as [|n IH]; intros e e' H; [discriminate |].
  rewrite scan_loop_unfold in H.
  destruct (Scan e) as [[|] e1| |] eqn:HS; try discriminate.
  - destruct (first_test pattern re (token e1)) as [m1|] eqn:Ht;
      [discriminate |].
    destruct (IH _ _ H) as (ts & e0 & Hd & Hall & HS0).
    exists (token e1 :: ts), e0. repeat split; try assumption.
    + econstructor; eassumption.
    + constructor; assumption.
  - injection H as <-. exists [], e. repeat split; try assumption; constructor.
Qed.

Lemma delivers_then (e e0 : Session) (ts : list string) :
  delivers e ts e0 ->
  Forall (fun t => first_test pattern re t = None) ts ->
  forall n, (List.length (lines e) < n)%nat ->
    exists k, (List.length (lines e0) < k)%nat
              /\ scan_loop n pattern re e = scan_loop k pattern re e0.
Proof.
  induction 1 as [e | e e1 e2 ts HS _ IH]; intros Hall n Hn.
  - exists n. split; [exact Hn | reflexivity].
  - inversion Hall as [|? ? Ht Hall']; subst.
    destruct n as [|n]; [lia |].
    rewrite scan_loop_unfold, HS, Ht.
    apply IH; [exact Hall' |].
    apply Scan_true in HS. destruct HS as (_ & _ & a & Ha).
    rewrite Ha in Hn. simpl in Hn. lia.
Qed.

End Loop.

(** ** The expect engine *)

Lemma lines_armed (d : Duration) (e : Session) : lines (armed d e) = lines e.
Proof. unfold armed. destruct (reader_closed e); reflexivity. Qed.

(** ExpectAny is the loop run on the armed session, then, when the
    loop falls through, Wait and the choice of the error. *)
Lemma ExpectAny_unfold (pattern : string) (re : option Regexp)
      (d : Duration) (e : Session) :
  ExpectAny pattern re d e =
  match scan_loop (S (List.length (lines e))) pattern re (armed d e) with
  | Returns (Some m) e1 => Returns (m, None) e1
  | Returns None e1 =>
      match Wait e1 with
      | Returns _ e2 =>
          Returns ("", Some (verdict e2)) e2
      | Blocks => Blocks
      | Panics msg => Panics msg
      end
  | Blocks => Blocks
  | Panics msg => Panics msg
  end.
Proof.
  unfold ExpectAny, armed, effective, Add, bind, get_timeout, ret, time_Now,
    reader_SetReadDeadline, Err.
  destruct (d <? 0); destruct (reader_closed e);
    cbn [lines log set_trace set_deadline];
    match goal with
    | |- context [scan_loop ?n ?p ?r ?s] =>
        destruct (scan_loop n p r s) as [[m|] e1| |]; try reflexivity
    end;
    destruct (Wait e1) as [w e2| |]; try reflexivity;
    unfold verdict; destruct (serr e2) as [[]|]; reflexivity.
Qed.

(** C5: ExpectAny answers a match exactly when the scanner hands out,
    one after the other and in the order of the stream, lines that
    all fail the test, and then a line that passes it; it returns
    there and then, with the session as that last Scan left it.  The
    test on a line tries the literal first: when the literal is
    supplied and contained in the line, the answer is the pattern
    itself, whatever the regular expression would find; otherwise it
    is what the regular expression finds, when that is not empty. *)
Theorem ExpectAny_first_match (pattern : string) (re : option Regexp)
        (d : Duration) (e : Session) :
  (forall (m : string) (e' : Session),
      ExpectAny pattern re d e = Returns (m, None) e' <->
      exists ts e0,
        delivers (armed d e) ts e0
        /\ Forall (fun t => first_test pattern re t = None) ts
        /\ Scan e0 = Returns true e'
        /\ first_test pattern re (token e') = Some m)
  /\ (forall (ts : list string) (e0 : Session),
         delivers (armed d e) ts e0 ->
         exists pre, lines e = pre ++ lines e0 /\ map snd pre = ts)
  /\ (forall text : string,
         (0 <? len pattern) && Contains text pattern = true ->
         first_test pattern re text = Some pattern)
  /\ (forall text : string,
         (0 <? len pattern) && Contains text pattern = false ->
         first_test pattern re text =
         match re with
         | Some r => if 0 <? len (FindString r text)
                     then Some (FindString r text) else None
         | None => None
         end).
Proof.
  split; [| split; [| split]].
  - intros m e'. rewrite ExpectAny_unfold. split.
    + intros H.
      destruct (scan_loop (S (List.length (lines e))) pattern re (armed d e))
        as [[m1|] e1| |] eqn:HL; try discriminate.
      * injection H as <- <-. eapply scan_loop_matched. exact HL.
      * destruct (Wait e1); discriminate.
    + intros (ts & e0 & Hd & Hall & HS & Hm).
      destruct (delivers_then pattern re _ _ _ Hd Hall
                  (S (List.length (lines e)))) as (k & Hk & Heq).
      { rewrite lines_armed. lia. }
      rewrite Heq. destruct k as [|k]; [lia |].
      rewrite scan_loop_unfold, HS, Hm. reflexivity.
  - intros ts e0 Hd. rewrite <- (lines_armed d e).
    apply delivers_prefix. exact Hd.
  - intros text H. unfold first_test, literal_hit. rewrite H. reflexivity.
  - intros text H. unfold first_test, literal_hit, regex_hit. rewrite H.
    reflexivity.
Qed.

Lemma ExpectAny_first_match_witness :
  first_test "password:" (Some re_digits) "password: 42" = Some "password:"
  /\ exists ts e0,
       delivers (armed (-1) login) ts e0
       /\ Forall (fun t => first_test "password:" None t = None) ts
       /\ Scan e0 = Returns true login_prompted
       /\ first_test "password:" None (token login_prompted) = Some "password:".
Proof.
  split.
  - apply (proj1 (proj2 (proj2 (ExpectAny_first_match
                                  "password:" (Some re_digits) 0 login)))).
    vm_compute. reflexivity.
  - apply (proj1 (proj1 (ExpectAny_first_match "password:" None (-1) login)
                   "password:" login_prompted)).
    vm_compute. reflexivity.
Defined.

(** What arming the deadline leaves alone. *)
Lemma armed_handles (d : Duration) (e : Session) :
  child_exit (armed d e) = child_exit e
  /\ pty_closed (armed d e) = pty_closed e
  /\ pty_close_err (armed d e) = pty_close_err e
  /\ signal_closed (armed d e) = signal_closed e
  /\ reader_closed (armed d e) = reader_closed e
  /\ serr (armed d e) = serr e
  /\ now (armed d e) = now e
  /\ ending (armed d e) = ending e
  /\ trace (armed d e) = trace e ++ [EvSetReadDeadline (now e + effective d e)]
  /\ (reader_closed e = false -> deadline (armed d e) = now e + effective d e).
Proof.
  unfold armed, Add. destruct (reader_closed e) eqn:Hc; simpl;
    repeat split; try reflexivity; try assumption; discriminate.
Qed.

(** The handles as the loop leaves them, seen from before the call. *)
Lemma loop_handles (n : nat) (pattern : string) (re : option Regexp)
      (d : Duration) (e e1 : Session) (r : option string) :
  scan_loop n pattern re (armed d e) = Returns r e1 ->
  child_exit e1 = child_exit e
  /\ close_answer e1 = close_answer e
  /\ (sound e -> sound e1)
  /\ trace e1 = trace e ++ [EvSetReadDeadline (now e + effective d e)]
  /\ now e <= now e1.
Proof.
  intros H. apply scan_loop_same_handles in H.
  destruct (armed_handles d e)
    as (Ha1 & Ha2 & Ha3 & Ha4 & _ & _ & Ha7 & _ & Ha9 & _).
  unfold same_handles in H.
  destruct H as (_ & H1 & H2 & H3 & _ & _ & _ & H4 & _ & _ & _ & _ & H5 & H6).
  repeat split.
  - congruence.
  - unfold close_answer. rewrite H2, H3, Ha2, Ha3. reflexivity.
  - unfold sound. rewrite H4, H2, Ha4, Ha2. tauto.
  - congruence.
  - lia.
Qed.

(** When the loop falls through, ExpectAny calls Wait, whatever made
    the scanner stop, and answers once Wait has returned: an empty
    match and the scanner's error, or "command exit" when the scanner
    stopped on the end of the stream. *)
Lemma ExpectAny_stopped (pattern : string) (re : option Regexp)
      (d : Duration) (e e1 : Session) :
  sound e ->
  scan_loop (S (List.length (lines e))) pattern re (armed d e)
  = Returns None e1 ->
  match child_exit e with
  | None => ExpectAny pattern re d e = Blocks
  | Some x =>
      exists e2,
        ExpectAny pattern re d e = Returns ("", Some (verdict e1)) e2
        /\ (exists tl,
              since e1 e2 = EvCmdWait :: EvPtyClose (close_answer e) :: tl)
        /\ pty_closed e2 = true
        /\ x <= now e2
        /\ serr e2 = serr e1
  end.
Proof.
  intros Hs HL. rewrite ExpectAny_unfold, HL.
  destruct (loop_handles _ _ _ _ _ _ _ HL) as (Hx & Hc & Hs1 & _ & _).
  destruct (child_exit e) as [x|] eqn:Hce.
  - destruct (Wait_returns e1 x (Hs1 Hs) Hx)
      as (w & e2 & HW & _ & Hp & He & _ & Hn).
    rewrite HW. exists e2.
    apply Wait_inv in HW. destruct HW as (x' & _ & _ & _ & _ & tl & Htl).
    unfold verdict. rewrite He. repeat split; try assumption.
    + exists tl. rewrite <- Hc. exact Htl.
    + lia.
  - rewrite (Wait_blocks e1 Hx). reflexivity.
Qed.

(** ExpectAny does not panic on a sound session, and leaves it
    sound. *)
Lemma ExpectAny_never_panics (pattern : string) (re : option Regexp)
      (d : Duration) (e : Session) (msg : string) :
  sound e -> ExpectAny pattern re d e <> Panics msg.
Proof.
  intros Hs H. rewrite ExpectAny_unfold in H.
  destruct (scan_loop (S (List.length (lines e))) pattern re (armed d e))
    as [[m|] e1| |] eqn:HL; try discriminate.
  - destruct (loop_handles _ _ _ _ _ _ _ HL) as (_ & _ & Hs1 & _).
    destruct (Wait e1) as [w e2| |] eqn:HW; try discriminate.
    exact (Wait_never_panics e1 _ (Hs1 Hs) HW).
  - revert HL. apply scan_loop_never_panics. rewrite lines_armed. lia.
Qed.

Lemma ExpectAny_sound (pattern : string) (re : option Regexp)
      (d : Duration) (e e' : Session) (r : string * option error) :
  sound e -> ExpectAny pattern re d e = Returns r e' -> sound e'.
Proof.
  intros Hs H. rewrite ExpectAny_unfold in H.
  destruct (scan_loop (S (List.length (lines e))) pattern re (armed d e))
    as [[m|] e1| |] eqn:HL; try discriminate;
    destruct (loop_handles _ _ _ _ _ _ _ HL) as (_ & _ & Hs1 & _).
  - injection H as _ <-. exact (Hs1 Hs).
  - destruct (Wait e1) as [w e2| |] eqn:HW; try discriminate.
    injection H as _ <-. exact (Wait_sound e1 e2 w (Hs1 Hs) HW).
Qed.

(** With no regular expression the only match is the pattern, and
    the pattern is not empty then. *)
Lemma first_test_literal (pattern text m : string) :
  first_test pattern None text = Some m ->
  m = pattern /\ String.eqb pattern "" = false.
Proof.
  unfold first_test, literal_hit, regex_hit, len. intros H.
  destruct pattern as [|c p]; simpl in H; [discriminate |].
  destruct (Contains text (String c p)); [| discriminate].
  injection H as <-. split; reflexivity.
Qed.

(** X9: Expect answers true with no error when ExpectAny matched the
    pattern, and false with the error of ExpectAny otherwise. *)
Lemma Expect_answers (pattern : string) (d : Duration) (e e' : Session)
      (b : bool) (err : option error) :
  Expect pattern d e = Returns (b, err) e' ->
  (b = true /\ err = None
   /\ ExpectAny pattern None d e = Returns (pattern, None) e')
  \/ (b = false
      /\ exists x, err = Some x
                   /\ ExpectAny pattern None d e = Returns ("", Some x) e').
Proof.
  unfold Expect, bind, ret. rewrite ExpectAny_unfold.
  destruct (scan_loop (S (List.length (lines e))) pattern None (armed d e))
    as [[m|] e1| |] eqn:HL; try discriminate.
  - apply scan_loop_matched in HL.
    destruct HL as (_ & _ & _ & _ & _ & Hm).
    apply first_test_literal in Hm. destruct Hm as (-> & Hp).
    simpl. rewrite Hp. simpl. intros H. injection H as <- <- <-.
    left. repeat split.
  - destruct (Wait e1) as [w e2| |]; try discriminate.
    simpl. intros H. injection H as <- <- <-.
    right. split; [reflexivity |]. eexists. split; reflexivity.
Qed.

(** ExpectRe is ExpectAny with no literal. *)
Lemma ExpectRe_is_ExpectAny (re : option Regexp) (d : Duration) :
  ExpectRe re d = ExpectAny "" re d.
Proof. reflexivity. Qed.

(** On a stream that has come to its end the loop stops at once, on
    [io.EOF]. *)
Lemma closed_stream_loop (pattern : string) (re : option Regexp)
      (d : Duration) (e : Session) :
  stream_closed d e ->
  exists e1,
    scan_loop (S (List.length (lines e))) pattern re (armed d e)
    = Returns None e1
    /\ serr e1 = Some EOF.
Proof.
  intros (Hl & Hc). rewrite scan_loop_unfold.
  destruct (armed_handles d e)
    as (_ & _ & _ & _ & Hrc & Hse & Hnow & Hend & _ & Hdl).
  destruct Hc as [He | (He & Hr & Hd & a & Ha & Hle)].
  - rewrite (Scan_sticky (armed d e) EOF) by congruence.
    eexists. split; [reflexivity | congruence].
  - unfold Scan, pipe_Read. rewrite Hse, He, lines_armed, Hl, Hend, Ha.
    rewrite Hrc, Hr, Hnow, (Hdl Hr).
    destruct (IsZero (now e + effective d e)).
    + eexists. split; [reflexivity | reflexivity].
    + assert (Hlt : (Z.max (now e) a <? now e + effective d e) = true)
        by (apply Z.ltb_lt; lia).
      rewrite Hlt. eexists. split; reflexivity.
Qed.

(** The end of the stream: when the loop of ExpectAny falls through
    because the scanner came to the end of its input, ExpectAny calls Wait first (so it
    does not return while the child lives) and then answers the
    error "command exit" with an empty match; Expect then answers
    false with that error.  In particular this is what Expect answers
    on a stream that is closed already. *)
Theorem ExpectAny_stream_ended (pattern : string) (re : option Regexp)
        (d : Duration) (e : Session) :
  sound e ->
  (forall e1 : Session,
      scan_loop (S (List.length (lines e))) pattern re (armed d e)
      = Returns None e1 ->
      serr e1 = Some EOF ->
      match child_exit e with
      | None => ExpectAny pattern re d e = Blocks
      | Some x =>
          exists e2,
            ExpectAny pattern re d e
            = Returns ("", Some (New "command exit")) e2
            /\ (exists tl,
                  since e1 e2 = EvCmdWait :: EvPtyClose (close_answer e) :: tl)
            /\ pty_closed e2 = true
            /\ x <= now e2
      end)
  /\ (stream_closed d e ->
      match child_exit e with
      | None => Expect pattern d e = Blocks
      | Some x =>
          exists e2,
            Expect pattern d e = Returns (false, Some (New "command exit")) e2
            /\ pty_closed e2 = true
      end).
Proof.
  intros Hs.
  assert (Hgen : forall (p : string) (r : option Regexp) (e1 : Session),
             scan_loop (S (List.length (lines e))) p r (armed d e)
             = Returns None e1 ->
             serr e1 = Some EOF ->
             match child_exit e with
             | None => ExpectAny p r d e = Blocks
             | Some x =>
                 exists e2,
                   ExpectAny p r d e
                   = Returns ("", Some (New "command exit")) e2
                   /\ (exists tl,
                         since e1 e2
                         = EvCmdWait :: EvPtyClose (close_answer e) :: tl)
                   /\ pty_closed e2 = true
                   /\ x <= now e2
             end).
  { intros p r e1 HL He.
    pose proof (ExpectAny_stopped p r d e e1 Hs HL) as H.
    destruct (child_exit e) as [x|]; [| exact H].
    destruct H as (e2 & HE & Htl & Hp & Hn & _).
    exists e2. unfold verdict in HE. rewrite He in HE.
    repeat split; assumption. }
  split; [apply Hgen |].
  intros Hc.
  destruct (closed_stream_loop pattern None d e Hc) as (e1 & HL & He).
  pose proof (Hgen pattern None e1 HL He) as H.
  unfold Expect, bind.
  destruct (child_exit e) as [x|].
  - destruct H as (e2 & HE & _ & Hp & _). rewrite HE.
    exists e2. split; [reflexivity | exact Hp].
  - rewrite H. reflexivity.
Qed.

Lemma ExpectAny_stream_ended_witness :
  (exists e2,
      ExpectAny "ready" None (-1) echo_read
      = Returns ("", Some (New "command exit")) e2
      /\ (exists tl, since echo_ended e2
                     = EvCmdWait :: EvPtyClose (close_answer echo_read) :: tl)
      /\ pty_closed e2 = true
      /\ 1600 <= now e2)
  /\ exists e2,
       Expect "ready" (-1) echo_read
       = Returns (false, Some (New "command exit")) e2
       /\ pty_closed e2 = true.
Proof.
  assert (Hs : sound echo_read) by (unfold sound; vm_compute; discriminate).
  destruct (ExpectAny_stream_ended "ready" None (-1) echo_read Hs)
    as [Hloop Hclosed].
  split.
  - apply (Hloop echo_ended); vm_compute; reflexivity.
  - apply Hclosed.
    unfold stream_closed. split; [reflexivity |]. right.
    split; [reflexivity |]. split; [reflexivity |].
    split; [vm_compute; reflexivity |].
    exists 1600. split; [reflexivity | vm_compute; reflexivity].
Defined.

(** The scenario of the design notes: [echo ready] spawned with one
    second; the first Expect finds the line, the second one is told
    that the command has exited. *)
Example Expect_echo_ready_twice :
  exists e1 e2,
    Expect "ready" (-1) echo = Returns (true, None) e1
    /\ Expect "ready" (-1) e1 = Returns (false, Some (New "command exit")) e2.
Proof.
  do 2 eexists. split; vm_compute; reflexivity.
Qed.

(** C3 on the code: on [echo ready], once the line has been found and
    the child has long closed the stream, a call of Expect with a
    timeout of zero does not answer "command exit": the deadline it
    sets is the instant of the call, the read that would have met
    the end of the stream fails on it, and the call answers the
    timeout error.  With a second to go the same call is told that
    the command has exited. *)
Theorem Expect_zero_timeout_on_closed_stream :
  lines echo_closed = [] /\ ending echo_closed = Eof 1600
  /\ 1600 <= now echo_closed
  /\ serr echo_closed = None /\ reader_closed echo_closed = false
  /\ (exists e',
        Expect "ready" 0 echo_closed
        = Returns (false, Some ErrDeadlineExceeded) e')
  /\ exists e',
       Expect "ready" Second echo_closed
       = Returns (false, Some (New "command exit")) e'.
Proof.
  split; [reflexivity |]. split; [reflexivity |].
  split; [vm_compute; discriminate |].
  split; [reflexivity |]. split; [reflexivity |].
  split; eexists; vm_compute; reflexivity.
Qed.


(** C2, as the code has it: when the loop of ExpectAny falls through
    because the read deadline passed, ExpectAny calls Wait all the
    same: it does not return while the child lives, the pty gets
    closed, and only then is the scanner's timeout error answered,
    with an empty match. *)
Theorem ExpectAny_timeout_then_Wait (pattern : string) (re : option Regexp)
        (d : Duration) (e e1 : Session) (err : error) :
  sound e ->
  scan_loop (S (List.length (lines e))) pattern re (armed d e)
  = Returns None e1 ->
  serr e1 = Some err ->
  IsTimeout err = true ->
  match child_exit e with
  | None => ExpectAny pattern re d e = Blocks
  | Some x =>
      exists e2,
        ExpectAny pattern re d e = Returns ("", Some err) e2
        /\ (exists tl,
              since e1 e2 = EvCmdWait :: EvPtyClose (close_answer e) :: tl)
        /\ pty_closed e2 = true
        /\ x <= now e2
        /\ serr e2 = Some err
  end.
Proof.
  intros Hs HL He Ht.
  pose proof (ExpectAny_stopped pattern re d e e1 Hs HL) as H.
  destruct (child_exit e) as [x|]; [| exact H].
  destruct H as (e2 & HE & Htl & Hp & Hn & He2).
  exists e2. unfold verdict in HE. rewrite He in HE.
  assert (Hv : match err with EOF => New "command exit" | _ => err end = err)
    by (destruct err; try reflexivity; discriminate Ht).
  rewrite Hv in HE. repeat split; try assumption. congruence.
Qed.

Lemma sound_login : sound login.
Proof. unfold sound. simpl. discriminate. Qed.

Lemma ExpectAny_timeout_then_Wait_witness :
  exists e2,
    ExpectAny "password:" None Second login
    = Returns ("", Some ErrDeadlineExceeded) e2
    /\ pty_closed e2 = true
    /\ 1000 + 10 * Second <= now e2.
Proof.
  destruct (ExpectAny_timeout_then_Wait "password:" None Second login
              login_timed_out ErrDeadlineExceeded sound_login)
    as (e2 & HE & _ & Hp & Hn & _).
  - vm_compute. reflexivity.
  - vm_compute. reflexivity.
  - reflexivity.
  - exists e2. repeat split; assumption.
Defined.

(** A call that ends on the deadline does tear the session down: on
    the login dialogue, with one second to find a prompt that takes
    two, ExpectAny answers the timeout error only once the child has
    exited, nine seconds later, and by then Wait has run: the pty and
    the channel are closed and the terminal mode is restored. *)
Lemma ExpectAny_timeout_tears_down :
  exists e',
    ExpectAny "password:" None Second login
    = Returns ("", Some ErrDeadlineExceeded) e'
    /\ IsTimeout ErrDeadlineExceeded = true
    /\ (pty_closed login = false /\ raw login = true /\ trace login = [])
    /\ since login e' = [EvSetReadDeadline (1000 + Second); EvCmdWait;
                         EvPtyClose None; EvSignalStop; EvCloseSignalCh;
                         EvTermRestore None]
    /\ pty_closed e' = true /\ signal_closed e' = true /\ raw e' = false
    /\ now e' = 1000 + 10 * Second.
Proof.
  eexists. split; [vm_compute; reflexivity |].
  vm_compute. repeat split.
Qed.

(** After such a call the scanner is of no more use: it stays stopped
    on the timeout, and a later call answers the same error although
    the prompt has long been written. *)
Example ExpectAny_after_timeout :
  exists e1 e2,
    ExpectAny "password:" None Second login
    = Returns ("", Some ErrDeadlineExceeded) e1
    /\ ExpectAny "password:" None (20 * Second) e1
       = Returns ("", Some ErrDeadlineExceeded) e2
    /\ lines e2 = [(1000 + 2 * Second, "password: ")].
Proof.
  do 2 eexists. split; [vm_compute; reflexivity |].
  split; vm_compute; reflexivity.
Qed.

(** Nor is the pty: what is sent after such a call is refused. *)
Example SendLine_after_timeout :
  exists e1 e2,
    ExpectAny "password:" None Second login
    = Returns ("", Some ErrDeadlineExceeded) e1
    /\ SendLine "passwd" e1 = Returns (0, Some ErrClosed) e2.
Proof.
  do 2 eexists. split; vm_compute; reflexivity.
Qed.

(** The dialogue of the README: expect the prompt with the default
    timeout, send the password, hand over to the operator, wait.
    Interact returns when the child hangs up, and Wait restores the
    terminal. *)
Example README_dialogue :
  exists e',
    (Expect "password:" (-1) ;;; SendLine "passwd" ;;; Interact ;;; Wait) login
    = Returns None e'
    /\ now e' = 1000 + 10 * Second
    /\ raw e' = false /\ pty_closed e' = true.
Proof.
  eexists. split; [vm_compute; reflexivity |].
  vm_compute. repeat split.
Qed.

(** *** A timeout of zero *)

(** With a timeout of zero the deadline handed to SetReadDeadline is
    the instant of the call, not the zero [Time]. *)
Lemma zero_timeout_deadline (e : Session) :
  reader_closed e = false ->
  deadline (armed 0 e) = now e
  /\ (now e <> 0 -> IsZero (deadline (armed 0 e)) = false).
Proof.
  intros Hr.
  destruct (armed_handles 0 e) as (_ & _ & _ & _ & _ & _ & _ & _ & _ & Hd).
  rewrite (Hd Hr). unfold effective. simpl. rewrite Z.add_0_r.
  split; [reflexivity |]. intros Hn. unfold IsZero. apply Z.eqb_neq. exact Hn.
Qed.

(** On a session fresh from Spawn nothing is buffered, so the first
    Scan has to read, and under a deadline that has passed already the
    read fails: whatever the child writes and whenever, the loop of a
    call with a timeout of zero stops at once on the timeout error. *)
Lemma zero_timeout_fresh_session (command : string) (t : Duration) (h : Host)
      (e : Session) (pattern : string) (re : option Regexp) :
  Spawn command t h = Started e ->
  h_now h <> 0 ->
  exists e1,
    scan_loop (S (List.length (lines e))) pattern re (armed 0 e)
    = Returns None e1
    /\ serr e1 = Some ErrDeadlineExceeded
    /\ lines e1 = lines e
    /\ now e1 = now e.
Proof.
  intros HS Hn. unfold Spawn in HS.
  destruct (len command =? 0); [discriminate |].
  destruct (Fields command); [discriminate |].
  destruct (h_start_err h); [discriminate |].
  destruct (h_raw_err h); [discriminate |].
  destruct (h_pipe_err h); [discriminate |].
  injection HS as <-.
  rewrite scan_loop_unfold. unfold Scan, pipe_Read, armed, buffered, Add,
    effective, stop_at. cbn -[Z.add Z.max Z.ltb].
  rewrite Z.add_0_r.
  assert (Hz : IsZero (h_now h) = false) by (apply Z.eqb_neq; exact Hn).
  assert (Hm : forall a, (Z.max (h_now h) a <? h_now h) = false)
    by (intros a; apply Z.ltb_ge; lia).
  rewrite Hz.
  destruct (h_lines h) as [|[a text] rest].
  - destruct (h_ending h); rewrite ?Hm, ?Z.max_id;
      eexists; (split; [reflexivity |]); repeat split.
  - rewrite Hm, Z.max_id. eexists. split; [reflexivity |]. repeat split.
Qed.

(** C1 on the code: on the login dialogue, fresh from Spawn, a call
    with a timeout of zero sets the deadline to the instant of the
    call and answers the timeout error, without having read a line;
    the prompt it was to wait for is written two seconds later.  With
    no deadline set the same loop finds the prompt. *)
Theorem ExpectAny_zero_timeout_times_out :
  exists e',
    ExpectAny "password:" None 0 login
    = Returns ("", Some ErrDeadlineExceeded) e'
    /\ deadline e' = now login
    /\ lines e' = lines login
    /\ exists e2,
         scan_loop 3 "password:" None login = Returns (Some "password:") e2
         /\ deadline login = 0.
Proof.
  eexists. split; [vm_compute; reflexivity |].
  split; [vm_compute; reflexivity |]. split; [vm_compute; reflexivity |].
  eexists. split; vm_compute; reflexivity.
Qed.

(** *** Nothing to match *)

(** A match is never the empty string. *)
Lemma first_test_nonempty (pattern : string) (re : option Regexp)
      (text m : string) :
  first_test pattern re text = Some m -> 0 < len m.
Proof.
  unfold first_test, literal_hit, regex_hit. intros H.
  destruct (0 <? len pattern) eqn:Hp; simpl in H.
  - destruct (Contains text pattern).
    + injection H as <-. apply Z.ltb_lt. exact Hp.
    + destruct re as [r|]; [| discriminate].
      destruct (0 <? len (FindString r text)) eqn:Hm; [| discriminate].
      injection H as <-. apply Z.ltb_lt. exact Hm.
  - destruct re as [r|]; [| discriminate].
    destruct (0 <? len (FindString r text)) eqn:Hm; [| discriminate].
    injection H as <-. apply Z.ltb_lt. exact Hm.
Qed.

(** [strings.Contains(text, "")] is true of every line; it is the
    length check of ExpectAny that keeps the empty pattern out. *)
Lemma Contains_empty (text : string) : Contains text "" = true.
Proof. destruct text; reflexivity. Qed.

(** C10, as the code has it: the empty pattern is never tested (though
    every line contains it) and a match of the regular expression
    counts only when it is not empty, so that a match is never the
    empty string.  With the empty pattern and a regular expression
    that is nil, or finds nothing but the empty string, no line passes
    the test and ExpectAny never answers a match: whenever it returns
    it answers the empty string with an error, which is "command
    exit" when the scanner stopped on the end of the stream and the
    error the scanner stopped on otherwise, be it the timeout or any
    other.  Under a deadline the call does return once the child has
    exited, and does not while the child lives. *)
Theorem ExpectAny_nothing_to_match (re : option Regexp) (d : Duration)
        (e : Session) :
  match re with
  | None => True
  | Some r => forall text, FindString r text = ""
  end ->
  (forall text, Contains text "" = true /\ first_test "" re text = None)
  /\ (forall pattern re' text m,
         first_test pattern re' text = Some m -> 0 < len m)
  /\ (forall r e',
         ExpectAny "" re d e = Returns r e' ->
         r = ("", Some (verdict e')) /\ exists err, serr e' = Some err)
  /\ (sound e -> 0 < now e -> 0 <= effective d e ->
      match child_exit e with
      | None => ExpectAny "" re d e = Blocks
      | Some _ => exists r e', ExpectAny "" re d e = Returns r e'
      end).
Proof.
  intros Hre.
  assert (Hno : forall text, first_test "" re text = None).
  { intros text. unfold first_test, literal_hit, regex_hit. simpl.
    destruct re as [r|]; [| reflexivity]. rewrite Hre. reflexivity. }
  assert (Hloop : forall m e1,
             scan_loop (S (List.length (lines e))) "" re (armed d e)
             <> Returns (Some m) e1).
  { intros m e1 H. apply scan_loop_matched in H.
    destruct H as (_ & _ & _ & _ & _ & H). rewrite Hno in H. discriminate. }
  split; [intros text; split; [apply Contains_empty | apply Hno] |].
  split; [intros p r' text m; apply first_test_nonempty |].
  split.
  - intros r e' H. rewrite ExpectAny_unfold in H.
    destruct (scan_loop (S (List.length (lines e))) "" re (armed d e))
      as [[m|] e1| |] eqn:HL; try discriminate.
    + exfalso. exact (Hloop m e1 eq_refl).
    + apply scan_loop_result in HL. destruct HL as (err & Herr).
      destruct (Wait e1) as [w e2| |] eqn:HW; try discriminate.
      injection H as <- <-. split; [reflexivity |].
      apply Wait_inv in HW. destruct HW as (_ & _ & He & _).
      exists err. congruence.
  - intros Hs Hnow Hd.
    destruct (armed_handles d e)
      as (_ & _ & _ & _ & Hrc & _ & _ & _ & _ & Hdl).
    destruct (scan_loop_returns "" re (S (List.length (lines e))) (armed d e))
      as (r & e1 & HL).
    { rewrite lines_armed. lia. }
    { destruct (reader_closed e) eqn:Hr.
      - right. rewrite Hrc. reflexivity.
      - left. rewrite (Hdl eq_refl). unfold IsZero. apply Z.eqb_neq. lia. }
    destruct r as [m|]; [exfalso; exact (Hloop m e1 HL) |].
    pose proof (ExpectAny_stopped "" re d e e1 Hs HL) as H.
    destruct (child_exit e); [| exact H].
    destruct H as (e2 & HE & _). eauto.
Qed.

Lemma ExpectAny_nothing_to_match_witness :
  exists r e', ExpectAny "" (Some re_empty) (-1) login = Returns r e'.
Proof.
  refine (proj2 (proj2 (proj2 (ExpectAny_nothing_to_match
                                 (Some re_empty) (-1) login _)))
            sound_login _ _).
  - intros text. reflexivity.
  - vm_compute. reflexivity.
  - vm_compute. discriminate.
Defined.

(** A stream on which the scanner fails for another reason: the call
    ends on the scanner's own error, which is neither the timeout nor
    "command exit". *)
Lemma ExpectAny_ends_on_scan_error :
  exists e',
    ExpectAny "" None Second long_line = Returns ("", Some ErrTooLong) e'
    /\ IsTimeout ErrTooLong = false
    /\ ErrTooLong <> New "command exit".
Proof.
  eexists. split; [vm_compute; reflexivity |].
  split; [reflexivity | discriminate].
Qed.

(** ** Interact *)

(** C4, as the code has it: Interact answers the error of the detach
    at once when closing the scanner's read end fails, and nil
    otherwise; but after a detach that succeeds it first copies the
    output of the pty to the display until a read of the pty fails,
    so that it returns at the hang-up of the pty (at once only when
    the pty is closed already) and does not return at all while the
    pty stays up. *)
Theorem Interact_detaches_then_copies (e : Session) :
  match detach_answer e with
  | Some x =>
      exists e',
        Interact e = Returns (Some x) e'
        /\ now e' = now e
        /\ since e e' = [EvReaderClose (Some x)]
  | None =>
      if pty_closed e then
        exists e',
          Interact e = Returns None e'
          /\ now e' = now e
          /\ since e e' = [EvReaderClose None; EvCopyPty]
          /\ reader_closed e' = true
      else
        match pty_hangup e with
        | None => Interact e = Blocks
        | Some h =>
            exists e',
              Interact e = Returns None e'
              /\ now e' = Z.max (now e) h
              /\ since e e' = [EvReaderClose None; EvCopyPty]
              /\ reader_closed e' = true
        end
  end.
Proof.
  unfold detach_answer, Interact, bind, ret, reader_Close, copy_pty_to_Stdout.
  destruct (reader_closed e) eqn:Hr.
  - eexists. split; [reflexivity |]. split; [reflexivity | trace_since].
  - destruct (reader_close_err e) as [x|] eqn:Hx.
    + eexists. split; [reflexivity |]. split; [reflexivity | trace_since].
    + cbn [pty_closed pty_hangup log set_trace set_reader_closed].
      destruct (pty_closed e) eqn:Hp.
      * eexists. split; [reflexivity |]. split; [reflexivity |].
        split; [trace_since | reflexivity].
      * destruct (pty_hangup e) as [h|] eqn:Hh; [| reflexivity].
        eexists. split; [reflexivity |]. split; [reflexivity |].
        split; [trace_since | reflexivity].
Qed.

(** Interact does wait for the pty: on the login dialogue the detach
    succeeds at once, and Interact returns only when the child hangs
    up, ten seconds after the spawn; on [cat], which never exits, it
    does not return. *)
Lemma Interact_waits_for_the_pty :
  detach_answer login = None
  /\ now login = 1000
  /\ (exists e', Interact login = Returns None e'
                 /\ now e' = 1000 + 10 * Second)
  /\ detach_answer cat = None
  /\ Interact cat = Blocks.
Proof.
  split; [reflexivity |]. split; [reflexivity |].
  split; [eexists; split; vm_compute; reflexivity |].
  split; vm_compute; reflexivity.
Qed.

(** Interact leaves the pty, the channel and the terminal alone. *)
Lemma Interact_sound (e e' : Session) (r : option error) :
  sound e -> Interact e = Returns r e' -> sound e'.
Proof.
  unfold sound, Interact, bind, ret, reader_Close, copy_pty_to_Stdout.
  intros Hs H.
  destruct (reader_closed e).
  - injection H as _ <-. exact Hs.
  - destruct (reader_close_err e).
    + injection H as _ <-. exact Hs.
    + cbn [pty_closed pty_hangup log set_trace set_reader_closed] in H.
      destruct (pty_closed e) eqn:Hp.
      * injection H as _ <-. simpl. intros _. exact Hp.
      * destruct (pty_hangup e); [| discriminate].
        injection H as _ <-. simpl. rewrite Hp. exact Hs.
Qed.

(** ** The pass-through reader *)

Import PipeThrough.

(** Reads that succeed or time out are passed on as they are and
    leave the channel alone. *)
Lemma Reads_soft (answers : list (Z * option error)) (pt : PipeThrough) :
  forallb (fun a => negb (hard_failure a)) answers = true ->
  Reads answers pt = Some (answers, pt).
Proof.
  induction answers as [|[n err] rest IH]; intros H; [reflexivity |].
  simpl in H. apply andb_prop in H. destruct H as [Ha Hrest].
  simpl. unfold hard_failure in Ha. simpl in Ha.
  destruct err as [x|]; simpl.
  - apply negb_true_iff, negb_false_iff in Ha. rewrite Ha.
    rewrite (IH Hrest). reflexivity.
  - rewrite (IH Hrest). reflexivity.
Qed.

(** Once the channel is drained every read is passed on as it is. *)
Lemma Reads_drained (answers : list (Z * option error)) (pt : PipeThrough) :
  errCh pt = Drained -> Reads answers pt = Some (answers, pt).
Proof.
  intros Hd. induction answers as [|[n err] rest IH]; [reflexivity |].
  simpl. destruct err as [x|].
  - destruct (IsTimeout x); [rewrite IH; reflexivity |].
    rewrite Hd, IH. reflexivity.
  - rewrite IH. reflexivity.
Qed.

Lemma Reads_app (l1 l2 : list (Z * option error)) :
  forall (pt pt1 : PipeThrough) (r1 : list (Z * option error)),
    Reads l1 pt = Some (r1, pt1) ->
    Reads (l1 ++ l2) pt =
    match Reads l2 pt1 with
    | Some (r2, pt2) => Some (r1 ++ r2, pt2)
    | None => None
    end.
Proof.
  induction l1 as [|a l1 IH]; intros pt pt1 r1 H.
  - injection H as <- <-. simpl. destruct (Reads l2 pt) as [[r2 pt2]|]; reflexivity.
  - simpl in *. destruct (Read a pt) as [n err pt0| |]; try discriminate.
    destruct (Reads l1 pt0) as [[r0 pt3]|] eqn:H0; [| discriminate].
    injection H as <- <-. rewrite (IH _ _ _ H0).
    destruct (Reads l2 pt3) as [[r2 pt2]|]; reflexivity.
Qed.

(** C8: on a pass-through reader whose source has come to its end
    (cleanly, which counts as [io.EOF], or on an error), take any run
    of reads of the pipe.  The reads before the first one that fails
    otherwise than on the deadline are answered as the pipe answers
    them, the timeouts among them too, and leave the reader as it
    was.  That first failing read is answered with the terminal error
    of the source in place of the pipe's error.  Every read after it
    is answered as the pipe answers it: the terminal error is handed
    out once and no more. *)
Theorem Read_surfaces_terminal_error_once
        (copy_err : option error) (pt : PipeThrough)
        (pre post : list (Z * option error)) (n : Z) (x : error) :
  NewPipeThrough None (Some copy_err) None = inl pt ->
  forallb (fun a => negb (hard_failure a)) pre = true ->
  IsTimeout x = false ->
  Reads pre pt = Some (pre, pt)
  /\ exists pt',
       Reads (pre ++ (n, Some x) :: post) pt
       = Some (pre ++ (n, Some (match copy_err with
                                | None => EOF
                                | Some y => y
                                end)) :: post, pt')
       /\ errCh pt' = Drained.
Proof.
  intros Hnew Hpre Hx.
  pose proof (Reads_soft pre pt Hpre) as Hs.
  split; [exact Hs |].
  rewrite (Reads_app pre _ pt pt pre Hs).
  unfold NewPipeThrough in Hnew. injection Hnew as <-.
  cbn [Reads Read errCh rd_deadline rd_closed]. rewrite Hx.
  eexists. rewrite Reads_drained by reflexivity.
  split; reflexivity.
Qed.

Lemma Read_surfaces_terminal_error_once_witness :
  exists pt',
    Reads ([(5, None); (0, Some ErrDeadlineExceeded)]
             ++ (0, Some EOF) :: [(0, Some EOF); (0, Some ErrClosed)])
          {| rd_deadline := 0; rd_closed := false;
             errCh := Holds (ErrSys "input/output error" false) |}
    = Some ([(5, None); (0, Some ErrDeadlineExceeded)]
              ++ (0, Some (ErrSys "input/output error" false))
              :: [(0, Some EOF); (0, Some ErrClosed)], pt')
    /\ errCh pt' = Drained.
Proof.
  refine (proj2 (Read_surfaces_terminal_error_once
                   (Some (ErrSys "input/output error" false))
                   {| rd_deadline := 0; rd_closed := false;
                      errCh := Holds (ErrSys "input/output error" false) |}
                   [(5, None); (0, Some ErrDeadlineExceeded)]
                   [(0, Some EOF); (0, Some ErrClosed)] 0 EOF _ _ _)).
  - reflexivity.
  - reflexivity.
  - reflexivity.
Defined.

(** X22: while the source has not come to its end a read that fails, and
    not on the deadline, waits for it: it does not return if the
    source never ends. *)
Lemma Read_waits_for_the_source (pt : PipeThrough) (n : Z) (x : error) :
  NewPipeThrough None None None = inl pt ->
  IsTimeout x = false ->
  Read (n, Some x) pt = Read_blocks.
Proof.
  intros Hnew Hx. unfold NewPipeThrough in Hnew. injection Hnew as <-.
  simpl. rewrite Hx. reflexivity.
Qed.

(** * Further properties of the code *)

(** ** Spawn *)

(** X1: Spawn answers a session exactly when the command has a field and
    the pty, the raw mode and the pipe are all obtained; the session
    then holds the first field as the path of the child, the other
    fields as its arguments, and the timeout, or the default when
    the timeout is below one nanosecond. *)
Theorem Spawn_started_iff (command : string) (t : Duration) (h : Host) :
  (exists e, Spawn command t h = Started e)
  <-> (only_space command = false
       /\ h_start_err h = None /\ h_raw_err h = None /\ h_pipe_err h = None).
Proof.
  assert (Hsp : only_space command = false <-> Fields command <> []).
  { rewrite Fields_nil_iff. destruct (only_space command); split;
      intros H; try discriminate; try reflexivity. exfalso. apply H.
    reflexivity. }
  unfold Spawn. split.
  - intros (e & H).
    destruct (len command =? 0); [discriminate |].
    destruct (Fields command) eqn:HF; [discriminate |].
    destruct (h_start_err h); [discriminate |].
    destruct (h_raw_err h); [discriminate |].
    destruct (h_pipe_err h); [discriminate |].
    repeat split. apply Hsp. discriminate.
  - intros (Hs & H1 & H2 & H3).
    destruct (len command =? 0) eqn:Hl.
    + apply len_zero_iff in Hl. subst. discriminate.
    + apply Hsp in Hs. destruct (Fields command); [contradiction |].
      rewrite H1, H2, H3. eauto.
Qed.

Lemma Spawn_started_iff_witness :
  exists e, Spawn "ssh 127.0.0.1" (3 * Second) host_login = Started e.
Proof.
  apply (proj2 (Spawn_started_iff "ssh 127.0.0.1" (3 * Second) host_login)).
  repeat split.
Defined.

(** X2: the session Spawn answers runs the first field of the command
    with the other fields as arguments, and stores the timeout it was
    given when that is at least one nanosecond. *)
Theorem Spawn_command_and_timeout (command : string) (t : Duration)
        (h : Host) (e : Session) :
  Spawn command t h = Started e ->
  Fields command = cmd_path e :: cmd_args e
  /\ timeout e = (if t <? 1 then DefaultTimeout else t)
  /\ now e = h_now h
  /\ lines e = h_lines h.
Proof.
  unfold Spawn. intros H.
  destruct (len command =? 0); [discriminate |].
  destruct (Fields command); [discriminate |].
  destruct (h_start_err h); [discriminate |].
  destruct (h_raw_err h); [discriminate |].
  destruct (h_pipe_err h); [discriminate |].
  injection H as <-. repeat split.
Qed.

Lemma Spawn_command_and_timeout_witness :
  Fields "ssh 127.0.0.1" = cmd_path login :: cmd_args login
  /\ timeout login = 3 * Second.
Proof.
  destruct (Spawn_command_and_timeout "ssh 127.0.0.1" (3 * Second)
              host_login login eq_refl) as (H1 & H2 & _).
  split; [exact H1 | exact H2].
Defined.

Lemma Spawn_crashes_only_on_blank_witness :
  String " " " " <> "" /\ only_space (String " " " ") = true.
Proof.
  apply (Spawn_crashes_only_on_blank (String " " " ") Second host_echo
           "index out of range [0] with length 0").
  reflexivity.
Defined.

Lemma Spawn_fresh_witness : sound login /\ 1 <= timeout login.
Proof.
  destruct (Spawn_fresh "ssh 127.0.0.1" (3 * Second) host_login login
              eq_refl) as (Hs & _ & _ & _ & _ & _ & _ & _ & Ht).
  split; [exact Hs | exact Ht].
Defined.

(** ** Wait, again *)

(** All that a call of Wait that returns has done. *)
Lemma Wait_cases (e e' : Session) (r : option error) :
  Wait e = Returns r e' ->
  exists x,
    child_exit e = Some x /\ child_exit e' = Some x
    /\ pty_closed e' = true
    /\ serr e' = serr e /\ lines e' = lines e
    /\ reader_closed e' = reader_closed e
    /\ pty_write_err e' = pty_write_err e
    /\ ((exists y, close_answer e = Some y /\ r = Some y
                   /\ trace e' = trace e ++ [EvCmdWait; EvPtyClose (Some y)]
                   /\ raw e' = raw e
                   /\ signal_closed e' = signal_closed e)
        \/ (close_answer e = None /\ signal_closed e = false
            /\ r = restore_err e
            /\ trace e' = trace e ++ [EvCmdWait; EvPtyClose None;
                                      EvSignalStop; EvCloseSignalCh;
                                      EvTermRestore (restore_err e)]
            /\ signal_closed e' = true
            /\ raw e' = match restore_err e with
                        | Some _ => raw e
                        | None => false
                        end)).
Proof.
  unfold close_answer. run_Wait.
  destruct (child_exit e) as [x|] eqn:Hx; [| discriminate].
  cbn [pty_closed pty_close_err log set_trace set_now].
  destruct (pty_closed e) eqn:Hp.
  - intros H. injection H as <- <-. exists x. cbn.
    repeat split; try assumption.
    left. exists ErrClosed. unfold log. cbn. rewrite <- app_assoc.
    repeat split.
  - destruct (pty_close_err e) as [y|] eqn:Hc.
    + intros H. injection H as <- <-. exists x. cbn.
      repeat split; try assumption.
      left. exists y. unfold log. cbn. rewrite <- app_assoc.
      repeat split.
    + cbn [signal_closed log set_trace set_pty_closed set_now].
      destruct (signal_closed e) eqn:Hs; [discriminate |].
      cbn [restore_err log set_trace set_signal_closed set_pty_closed
             set_now].
      destruct (restore_err e) as [z|] eqn:Hr;
        intros H; injection H as <- <-; exists x; cbn;
        (repeat split; try assumption);
        right; unfold log; cbn; rewrite <- !app_assoc; rewrite ?Hr;
        repeat split.
Qed.

(** X4: Wait is safe to call again: once a call of Wait has returned, a
    further call answers the error of a closed file, does not panic
    (the channel is not closed a second time) and leaves the terminal
    mode as the first call left it. *)
Theorem Wait_twice (e e1 : Session) (r : option error) :
  Wait e = Returns r e1 ->
  exists e2,
    Wait e1 = Returns (Some ErrClosed) e2
    /\ since e1 e2 = [EvCmdWait; EvPtyClose (Some ErrClosed)]
    /\ raw e2 = raw e1
    /\ signal_closed e2 = signal_closed e1.
Proof.
  intros H. apply Wait_cases in H.
  destruct H as (x & _ & Hx & Hp & _).
  assert (Hc : close_answer e1 = Some ErrClosed)
    by (unfold close_answer; rewrite Hp; reflexivity).
  destruct (Wait_close_fails e1 x ErrClosed Hx Hc)
    as (e2 & HW & Hev & _ & Hr & Hs & _).
  exists e2. repeat split; assumption.
Qed.

Lemma Wait_twice_witness :
  exists e2, Wait echo_waited = Returns (Some ErrClosed) e2
             /\ raw e2 = raw echo_waited.
Proof.
  destruct (Wait_twice echo echo_waited None) as (e2 & HW & _ & Hr & _).
  - vm_compute. reflexivity.
  - exists e2. split; assumption.
Defined.

(** X5: Wait answers nil only when the whole teardown went through: the
    pty is closed, the channel is closed and the terminal is out of
    raw mode. *)
Theorem Wait_nil_means_restored (e e' : Session) :
  Wait e = Returns None e' ->
  pty_closed e' = true /\ signal_closed e' = true /\ raw e' = false
  /\ since e e' = [EvCmdWait; EvPtyClose None; EvSignalStop;
                   EvCloseSignalCh; EvTermRestore None].
Proof.
  intros H. apply Wait_cases in H.
  destruct H as (x & _ & _ & Hp & _ & _ & _ & _ & [H | H]).
  - destruct H as (y & _ & Hr & _). discriminate.
  - destruct H as (_ & _ & Hr & Ht & Hs & Hraw).
    rewrite <- Hr in Hraw, Ht.
    repeat split; try assumption. apply since_app. exact Ht.
Qed.

Lemma Wait_nil_means_restored_witness :
  pty_closed echo_waited = true /\ raw echo_waited = false.
Proof.
  destruct (Wait_nil_means_restored echo echo_waited) as (H1 & _ & H2 & _).
  - vm_compute. reflexivity.
  - split; assumption.
Defined.

(** ** Sending *)

(** X7: once Wait has returned nothing can be sent any more: Write, Send
    and SendLine all answer the error of a closed file and no byte
    written. *)
Theorem Send_after_Wait (e e1 : Session) (r : option error) (s : string) :
  Wait e = Returns r e1 ->
  exists e2 e3 e4,
    Write s e1 = Returns (0, Some ErrClosed) e2
    /\ Send s e1 = Returns (0, Some ErrClosed) e3
    /\ SendLine s e1 = Returns (0, Some ErrClosed) e4.
Proof.
  intros H. apply Wait_cases in H. destruct H as (x & _ & _ & Hp & _).
  unfold Write, Send, SendLine, pty_Write. rewrite Hp.
  do 3 eexists. repeat split.
Qed.

Lemma Send_after_Wait_witness :
  exists e3, Send "passwd" echo_waited = Returns (0, Some ErrClosed) e3.
Proof.
  destruct (Send_after_Wait echo echo_waited None "passwd")
    as (e2 & e3 & e4 & _ & H & _).
  - vm_compute. reflexivity.
  - exists e3. exact H.
Defined.

(** ** The expect engine, again *)

(** The two ways ExpectAny returns: from inside the loop, or after
    the loop and Wait. *)
Lemma ExpectAny_cases (pattern : string) (re : option Regexp)
      (d : Duration) (e e' : Session) (r : string * option error) :
  ExpectAny pattern re d e = Returns r e' ->
  (exists m,
      r = (m, None)
      /\ scan_loop (S (List.length (lines e))) pattern re (armed d e)
         = Returns (Some m) e')
  \/ (exists e1 w,
         scan_loop (S (List.length (lines e))) pattern re (armed d e)
         = Returns None e1
         /\ Wait e1 = Returns w e'
         /\ r = ("", Some (verdict e'))).
Proof.
  rewrite ExpectAny_unfold.
  destruct (scan_loop (S (List.length (lines e))) pattern re (armed d e))
    as [[m|] e1| |]; try discriminate.
  - intros H. injection H as <- <-. left. eauto.
  - destruct (Wait e1) as [w e2| |] eqn:HW; try discriminate.
    intros H. injection H as <- <-. right. eauto.
Qed.

(** What the loop leaves alone, seen from before the call. *)
Lemma loop_frame (n : nat) (pattern : string) (re : option Regexp)
      (d : Duration) (e e1 : Session) (r : option string) :
  scan_loop n pattern re (armed d e) = Returns r e1 ->
  pty_closed e1 = pty_closed e /\ raw e1 = raw e
  /\ signal_closed e1 = signal_closed e
  /\ reader_closed e1 = reader_closed e
  /\ timeout e1 = timeout e
  /\ trace e1 = trace e ++ [EvSetReadDeadline (now e + effective d e)].
Proof.
  intros H. apply scan_loop_same_handles in H.
  unfold same_handles in H.
  destruct H as (H0 & _ & H1 & _ & _ & H2 & _ & H3 & _ & H4 & _ & _ & H5 & _).
  destruct (armed_handles d e) as (_ & A1 & _ & A3 & A4 & _ & _ & _ & A5 & _).
  assert (A2 : raw (armed d e) = raw e /\ timeout (armed d e) = timeout e)
    by (unfold armed; destruct (reader_closed e); split; reflexivity).
  destruct A2 as (A2 & A6).
  repeat split; congruence.
Qed.

(** X8: ExpectAny answers a match, which is not empty, and no error, or
    the empty string and an error; so the flag Expect answers is true
    exactly when its error is nil. *)
Theorem ExpectAny_match_or_error (pattern : string) (re : option Regexp)
        (d : Duration) (e e' : Session) (m : string) (err : option error) :
  ExpectAny pattern re d e = Returns (m, err) e' ->
  (err = None /\ 0 < len m) \/ (m = "" /\ exists x, err = Some x).
Proof.
  intros H. apply ExpectAny_cases in H.
  destruct H as [(m1 & Hr & HL) | (e1 & w & _ & _ & Hr)].
  - injection Hr as -> ->. left. split; [reflexivity |].
    apply scan_loop_matched in HL.
    destruct HL as (_ & _ & _ & _ & _ & Hm).
    eapply first_test_nonempty. exact Hm.
  - injection Hr as -> ->. right. split; [reflexivity | eauto].
Qed.

Lemma ExpectAny_match_or_error_witness :
  (@None error = None /\ 0 < len "password:")
  \/ ("password:" = "" /\ exists x, @None error = Some x).
Proof.
  apply (ExpectAny_match_or_error "password:" None (-1) login login_prompted).
  vm_compute. reflexivity.
Defined.

Lemma Expect_answers_witness :
  (false = true /\ Some ErrDeadlineExceeded = None
   /\ ExpectAny "password:" None Second login
      = Returns ("password:", None) login_failed)
  \/ (false = false
      /\ exists x, Some ErrDeadlineExceeded = Some x
                   /\ ExpectAny "password:" None Second login
                      = Returns ("", Some x) login_failed).
Proof.
  apply (Expect_answers "password:" Second login login_failed false
           (Some ErrDeadlineExceeded)).
  vm_compute. reflexivity.
Defined.

(** X10: a call that finds its match does no teardown: all it has
    done is set the deadline and scan, and the pty, the notification
    channel, the terminal mode and the reader are as they were. *)
Theorem ExpectAny_match_no_teardown (pattern : string) (re : option Regexp)
        (d : Duration) (e e' : Session) (m : string) :
  ExpectAny pattern re d e = Returns (m, None) e' ->
  since e e' = [EvSetReadDeadline (now e + effective d e)]
  /\ pty_closed e' = pty_closed e /\ raw e' = raw e
  /\ signal_closed e' = signal_closed e
  /\ reader_closed e' = reader_closed e.
Proof.
  intros H. apply ExpectAny_cases in H.
  destruct H as [(m1 & Hr & HL) | (e1 & w & _ & _ & Hr)]; [| discriminate].
  destruct (loop_frame _ _ _ _ _ _ _ HL) as (H1 & H2 & H3 & H4 & _ & H5).
  split; [apply since_app; exact H5 |].
  repeat split; assumption.
Qed.

Lemma ExpectAny_match_no_teardown_witness :
  since login login_prompted
  = [EvSetReadDeadline (now login + effective (-1) login)]
  /\ pty_closed login_prompted = pty_closed login.
Proof.
  destruct (ExpectAny_match_no_teardown "password:" None (-1) login
              login_prompted "password:") as (H1 & H2 & _).
  - vm_compute. reflexivity.
  - split; assumption.
Defined.

(** X11: whenever ExpectAny answers an error the session is torn down:
    Wait has run after the deadline was set, so the child has exited
    by the time the call returns and the pty is closed. *)
Theorem ExpectAny_error_means_torn_down (pattern : string)
        (re : option Regexp) (d : Duration) (e e' : Session)
        (m : string) (x : error) :
  ExpectAny pattern re d e = Returns (m, Some x) e' ->
  m = ""
  /\ pty_closed e' = true
  /\ (exists t, child_exit e = Some t /\ t <= now e')
  /\ exists c tl,
       since e e' = EvSetReadDeadline (now e + effective d e)
                    :: EvCmdWait :: EvPtyClose c :: tl.
Proof.
  intros H. apply ExpectAny_cases in H.
  destruct H as [(m1 & Hr & _) | (e1 & w & HL & HW & Hr)]; [discriminate |].
  injection Hr as -> _.
  destruct (loop_frame _ _ _ _ _ _ _ HL) as (_ & _ & _ & _ & _ & Ht).
  destruct (loop_handles _ _ _ _ _ _ _ HL) as (Hx & _ & _ & _ & _).
  pose proof (Wait_inv _ _ _ HW) as (t & Ht1 & _ & Hp & Hn & _).
  apply Wait_cases in HW.
  destruct HW as (t' & _ & _ & _ & _ & _ & _ & _ & Hev).
  split; [reflexivity |]. split; [exact Hp |]. split.
  - exists t. split; [congruence | lia].
  - destruct Hev as [(y & _ & _ & Htr & _) | (_ & _ & _ & Htr & _)];
      do 2 eexists; apply since_app; rewrite Htr, Ht, <- app_assoc;
      reflexivity.
Qed.

Lemma ExpectAny_error_means_torn_down_witness :
  pty_closed login_failed = true
  /\ exists t, child_exit login = Some t /\ t <= now login_failed.
Proof.
  destruct (ExpectAny_error_means_torn_down "password:" None Second login
              login_failed "" ErrDeadlineExceeded) as (_ & Hp & Ht & _).
  - vm_compute. reflexivity.
  - split; assumption.
Defined.



(** X13: a negative timeout stands for the timeout of the session,
    whichever negative value it is. *)
Theorem ExpectAny_negative_timeout (pattern : string) (re : option Regexp)
        (d : Duration) (e : Session) :
  d < 0 -> ExpectAny pattern re d e = ExpectAny pattern re (timeout e) e.
Proof.
  intros Hd. rewrite !ExpectAny_unfold.
  assert (Ha : armed d e = armed (timeout e) e).
  { unfold armed, effective.
    assert (H1 : (d <? 0) = true) by (apply Z.ltb_lt; exact Hd).
    rewrite H1. destruct (timeout e <? 0); reflexivity. }
  rewrite Ha. reflexivity.
Qed.

Lemma ExpectAny_negative_timeout_witness :
  ExpectAny "password:" None (-7) login
  = ExpectAny "password:" None (timeout login) login.
Proof.
  apply ExpectAny_negative_timeout. reflexivity.
Defined.

(** *** The deadline bounds the scan *)

Lemma pipe_Read_by_deadline (a : option Time) (e : Session) (t : Time)
      (o : option error) :
  IsZero (deadline e) = false ->
  pipe_Read a e = Some (t, o) -> t <= Z.max (now e) (deadline e).
Proof.
  unfold pipe_Read. intros Hz H. rewrite Hz in H.
  destruct (reader_closed e).
  - injection H as <- _. lia.
  - destruct a as [a|].
    + destruct (Z.max (now e) a <? deadline e) eqn:Hlt;
        injection H as <- _; [apply Z.ltb_lt in Hlt |]; lia.
    + injection H as <- _. lia.
Qed.

Lemma Scan_by_deadline (e e1 : Session) (ok : bool) :
  IsZero (deadline e) = false ->
  Scan e = Returns ok e1 -> now e1 <= Z.max (now e) (deadline e).
Proof.
  intros Hz H. scan_cases H; injection H as <- <-; simpl; try lia;
    eapply pipe_Read_by_deadline; eassumption.
Qed.

Lemma scan_loop_by_deadline (pattern : string) (re : option Regexp)
      (n : nat) :
  forall (e e1 : Session) (r : option string),
    IsZero (deadline e) = false ->
    scan_loop n pattern re e = Returns r e1 ->
    now e1 <= Z.max (now e) (deadline e).
Proof.
  induction n as [|n IH]; intros e e1 r Hz H; [discriminate |].
  rewrite scan_loop_unfold in H.
  destruct (Scan e) as [[|] e0| |] eqn:HS; try discriminate.
  - pose proof (Scan_by_deadline _ _ _ Hz HS) as Hb.
    destruct (first_test pattern re (token e0)).
    + injection H as _ <-. exact Hb.
    + pose proof (Scan_same_handles _ _ _ HS) as Hf.
      unfold same_handles in Hf.
      destruct Hf as (_ & _ & _ & _ & _ & _ & _ & _ & Hdl & _).
      assert (Hz0 : IsZero (deadline e0) = false) by (rewrite Hdl; exact Hz).
      pose proof (IH _ _ _ Hz0 H) as Hb1. rewrite Hdl in Hb1. lia.
  - injection H as _ <-. eapply Scan_by_deadline; eassumption.
Qed.

(** X14: a match is never answered later than the deadline of the call:
    with a timeout that is not negative, or the session's timeout in
    its place, the call that finds its match returns within that
    time of its start. *)
Theorem ExpectAny_match_by_deadline (pattern : string) (re : option Regexp)
        (d : Duration) (e e' : Session) (m : string) :
  reader_closed e = false ->
  0 <= effective d e ->
  now e + effective d e <> 0 ->
  ExpectAny pattern re d e = Returns (m, None) e' ->
  now e <= now e' <= now e + effective d e.
Proof.
  intros Hr Hd Hnz H. apply ExpectAny_cases in H.
  destruct H as [(m1 & _ & HL) | (e1 & w & _ & _ & Hx)]; [| discriminate].
  destruct (loop_handles _ _ _ _ _ _ _ HL) as (_ & _ & _ & _ & Hle).
  split; [exact Hle |].
  destruct (armed_handles d e) as (_ & _ & _ & _ & _ & _ & An & _ & _ & Ad).
  apply scan_loop_by_deadline in HL.
  - rewrite An, (Ad Hr) in HL. lia.
  - rewrite (Ad Hr). apply Z.eqb_neq. exact Hnz.
Qed.

Lemma ExpectAny_match_by_deadline_witness :
  now login <= now login_prompted <= now login + effective (-1) login.
Proof.
  apply (ExpectAny_match_by_deadline "password:" None (-1) login
           login_prompted "password:").
  - reflexivity.
  - vm_compute. discriminate.
  - vm_compute. discriminate.
  - vm_compute. reflexivity.
Defined.

(** ** Interact, again *)

(** What a call of Interact that returns leaves: the reader closed,
    the scanner and the stream as they were. *)
Lemma Interact_frame (e e' : Session) (r : option error) :
  Interact e = Returns r e' ->
  reader_closed e' = true
  /\ serr e' = serr e /\ lines e' = lines e /\ fetched e' = fetched e
  /\ child_exit e' = child_exit e.
Proof.
  unfold Interact, bind, ret, reader_Close, copy_pty_to_Stdout. intros H.
  destruct (reader_closed e) eqn:Hr.
  - injection H as _ <-. repeat split. exact Hr.
  - destruct (reader_close_err e).
    + injection H as _ <-. repeat split.
    + cbn [pty_closed pty_hangup log set_trace set_reader_closed] in H.
      destruct (pty_closed e).
      * injection H as _ <-. repeat split.
      * destruct (pty_hangup e); [| discriminate].
        injection H as _ <-. repeat split.
Qed.

(** X16: Interact cannot be undone, nor done twice: a second call answers
    the error of a closed file at once, without copying anything. *)
Theorem Interact_twice (e e1 : Session) (r : option error) :
  Interact e = Returns r e1 ->
  exists e2,
    Interact e1 = Returns (Some ErrClosed) e2
    /\ now e2 = now e1
    /\ since e1 e2 = [EvReaderClose (Some ErrClosed)].
Proof.
  intros H. apply Interact_frame in H. destruct H as (Hr & _).
  unfold Interact, bind, ret, reader_Close. rewrite Hr.
  eexists. split; [reflexivity |]. split; [reflexivity | trace_since].
Qed.

Lemma Interact_twice_witness :
  exists e2, Interact login_detached = Returns (Some ErrClosed) e2
             /\ now e2 = now login_detached.
Proof.
  destruct (Interact_twice login login_detached None) as (e2 & H & Hn & _).
  - vm_compute. reflexivity.
  - exists e2. split; assumption.
Defined.




(** ** The earlier version of the engine *)

Lemma Legacy_ExpectAny_unfold (pattern : string) (re : option Regexp)
      (d : Duration) (e : Session) :
  Legacy.ExpectAny pattern re d e =
  match scan_loop (S (List.length (lines e))) pattern re (armed d e) with
  | Returns (Some m) e1 => Returns (m, None) e1
  | Returns None e1 => Returns ("", Some (Legacy.verdict e1)) e1
  | Blocks => Blocks
  | Panics msg => Panics msg
  end.
Proof.
  unfold Legacy.ExpectAny, armed, effective, Add, bind, get_timeout, ret,
    time_Now, reader_SetReadDeadline, Err.
  destruct (d <? 0); destruct (reader_closed e);
    cbn [lines log set_trace set_deadline];
    match goal with
    | |- context [scan_loop ?n ?p ?r ?s] =>
        destruct (scan_loop n p r s) as [[m|] e1| |]; try reflexivity
    end;
    unfold Legacy.verdict; destruct (serr e1) as [[]|]; reflexivity.
Qed.

(** X18: the earlier ExpectAny never tears the session down: whatever it
    answers, all it has done is set the deadline and scan; the pty,
    the channel and the terminal mode are as they were.  When it
    answers an error the match is empty and the scanner has
    stopped. *)
Theorem Legacy_ExpectAny_no_teardown (pattern : string)
        (re : option Regexp) (d : Duration) (e e' : Session)
        (r : string * option error) :
  Legacy.ExpectAny pattern re d e = Returns r e' ->
  since e e' = [EvSetReadDeadline (now e + effective d e)]
  /\ pty_closed e' = pty_closed e /\ raw e' = raw e
  /\ signal_closed e' = signal_closed e
  /\ match snd r with
     | Some x => fst r = "" /\ x = Legacy.verdict e'
                 /\ exists err, serr e' = Some err
     | None => 0 < len (fst r)
     end.
Proof.
  rewrite Legacy_ExpectAny_unfold.
  destruct (scan_loop (S (List.length (lines e))) pattern re (armed d e))
    as [[m|] e1| |] eqn:HL; try discriminate;
    intros H; injection H as <- <-;
    destruct (loop_frame _ _ _ _ _ _ _ HL) as (H1 & H2 & H3 & _ & _ & H5);
    (split; [apply since_app; exact H5 |]);
    repeat (split; [assumption |]); cbn [fst snd].
  - apply scan_loop_matched in HL.
    destruct HL as (_ & _ & _ & _ & _ & Hm).
    eapply first_test_nonempty. exact Hm.
  - apply scan_loop_result in HL. repeat split. exact HL.
Qed.

Lemma Legacy_ExpectAny_no_teardown_witness :
  pty_closed login_failed_legacy = pty_closed login
  /\ raw login_failed_legacy = raw login.
Proof.
  destruct (Legacy_ExpectAny_no_teardown "password:" None Second login
              login_failed_legacy ("", Some ErrDeadlineExceeded))
    as (_ & H1 & H2 & _).
  - vm_compute. reflexivity.
  - split; assumption.
Defined.

(** X19: the two versions agree on what they find: one answers a match
    exactly when the other does, with the same match and the same
    session.  Where the earlier one answers an error the current one
    first calls Wait on the session the earlier one leaves, and then
    answers the same error, except at the end of the stream, where
    "unknown error" has become "command exit". *)
Theorem Legacy_ExpectAny_and_current (pattern : string)
        (re : option Regexp) (d : Duration) (e : Session) :
  (forall m e',
      Legacy.ExpectAny pattern re d e = Returns (m, None) e'
      <-> ExpectAny pattern re d e = Returns (m, None) e')
  /\ (forall m x e1,
         Legacy.ExpectAny pattern re d e = Returns (m, Some x) e1 ->
         match Wait e1 with
         | Returns _ e2 =>
             ExpectAny pattern re d e
             = Returns ("", Some (match serr e1 with
                                  | Some EOF => New "command exit"
                                  | _ => x
                                  end)) e2
         | Blocks => ExpectAny pattern re d e = Blocks
         | Panics msg => ExpectAny pattern re d e = Panics msg
         end).
Proof.
  rewrite Legacy_ExpectAny_unfold, ExpectAny_unfold.
  destruct (scan_loop (S (List.length (lines e))) pattern re (armed d e))
    as [[m0|] e0| |] eqn:HL.
  - split.
    + intros m e'. split; intros H; exact H.
    + intros m x e1 H. discriminate.
  - split.
    + intros m e'. split; intros H; [discriminate |].
      destruct (Wait e0); discriminate.
    + intros m x e1 H. injection H as _ <- <-.
      destruct (Wait e0) as [w e2| |] eqn:HW; try reflexivity.
      apply Wait_cases in HW. destruct HW as (_ & _ & _ & _ & Hse & _).
      unfold verdict, Legacy.verdict. rewrite Hse.
      apply scan_loop_result in HL. destruct HL as (err & Herr).
      rewrite Herr. destruct err; reflexivity.
  - split; [intros m e'; split; intros H; discriminate |].
    intros m x e1 H. discriminate.
  - split; [intros m e'; split; intros H; discriminate |].
    intros m x e1 H. discriminate.
Qed.

Lemma Legacy_ExpectAny_and_current_witness :
  ExpectAny "password:" None (-1) login
  = Returns ("password:", None) login_prompted.
Proof.
  apply (proj1 (proj1 (Legacy_ExpectAny_and_current "password:" None (-1)
                         login) "password:" login_prompted)).
  vm_compute. reflexivity.
Defined.



(** ** The pass-through reader, again *)

(** X21: Read hands on the count of the pipe as it is, never turns a
    failure into a success nor a success into a failure, and answers
    a timeout with that very timeout, leaving the reader as it
    was. *)
Theorem Read_keeps_count_and_failure (n n' : Z) (err err' : option error)
        (pt pt' : PipeThrough) :
  Read (n, err) pt = Read_returns n' err' pt' ->
  n' = n
  /\ (err' = None <-> err = None)
  /\ (forall x, err = Some x -> IsTimeout x = true ->
                err' = Some x /\ pt' = pt)
  /\ rd_closed pt' = rd_closed pt /\ rd_deadline pt' = rd_deadline pt.
Proof.
  unfold Read. intros H.
  assert (Hgoal :
    forall P1 P2 P3 P4 P5 : Prop, P1 -> P2 -> P3 -> P4 -> P5 ->
      P1 /\ P2 /\ P3 /\ P4 /\ P5) by tauto.
  destruct err as [x|].
  - destruct (IsTimeout x) eqn:Ht.
    + injection H as <- <- <-. apply Hgoal; try reflexivity.
      intros y Hy _. split; [exact Hy | reflexivity].
    + destruct (errCh pt); try discriminate;
        injection H as <- <- <-; apply Hgoal; try reflexivity;
        try (split; discriminate);
        intros y Hy Hty; injection Hy as <-; congruence.
  - injection H as <- <- <-. apply Hgoal; try reflexivity.
    intros y Hy. discriminate.
Qed.

Lemma Read_keeps_count_and_failure_witness :
  5 = 5 /\ (Some EOF = None <-> Some ErrClosed = None).
Proof.
  destruct (Read_keeps_count_and_failure 5 5 (Some ErrClosed) (Some EOF)
              {| rd_deadline := 0; rd_closed := true; errCh := Holds EOF |}
              {| rd_deadline := 0; rd_closed := true; errCh := Drained |}
              eq_refl) as (H1 & H2 & _).
  split; assumption.
Defined.

Lemma Read_waits_for_the_source_witness :
  Read (0, Some ErrClosed)
       {| rd_deadline := 0; rd_closed := false; errCh := Never |}
  = Read_blocks.
Proof.
  apply Read_waits_for_the_source; reflexivity.
Defined.

(** ** No panic *)

Lemma pty_Write_sound (s : string) (e e' : Session) (r : Z * option error) :
  sound e -> pty_Write s e = Returns r e' -> sound e'.
Proof.
  unfold sound, pty_Write. intros Hs H.
  destruct (pty_closed e) eqn:Hp.
  - injection H as _ <-. simpl. intros _. exact Hp.
  - destruct (pty_write_err e); injection H as _ <-; simpl; rewrite Hp;
      exact Hs.
Qed.

Lemma Expect_sound (pattern : string) (d : Duration) (e e' : Session)
      (r : bool * option error) :
  sound e -> Expect pattern d e = Returns r e' -> sound e'.
Proof.
  unfold Expect, bind, ret. intros Hs H.
  destruct (ExpectAny pattern None d e) as [r0 e0| |] eqn:HE;
    try discriminate.
  injection H as _ <-. eapply ExpectAny_sound; eassumption.
Qed.

Lemma reachable_sound (e : Session) : reachable e -> sound e.
Proof.
  induction 1 as [c t h e HS | e t _ IH _ | e r e' _ IH H | e r e' _ IH H
                  | e p re d r e' _ IH H | e p d r e' _ IH H
                  | e re d r e' _ IH H | e b r e' _ IH H
                  | e s r e' _ IH H | e s r e' _ IH H].
  - apply Spawn_fresh in HS. tauto.
  - exact IH.
  - eapply Wait_sound; eassumption.
  - eapply Interact_sound; eassumption.
  - eapply ExpectAny_sound; eassumption.
  - eapply Expect_sound; eassumption.
  - eapply ExpectAny_sound; eassumption.
  - eapply pty_Write_sound; eassumption.
  - eapply pty_Write_sound; eassumption.
  - eapply pty_Write_sound; eassumption.
Qed.

(** X23: no method panics on a session a program can get to: however the
    calls of Wait, Interact, the Expect methods and the Send methods
    follow one another after Spawn, the notification channel is never
    closed twice.  In particular Wait can be called after an Expect
    method has called it. *)
Theorem reachable_never_panics (e : Session) (msg : string) :
  reachable e ->
  Wait e <> Panics msg
  /\ Interact e <> Panics msg
  /\ (forall pattern re d,
         ExpectAny pattern re d e <> Panics msg
         /\ Expect pattern d e <> Panics msg
         /\ ExpectRe re d e <> Panics msg)
  /\ (forall s,
         Write s e <> Panics msg /\ Send s e <> Panics msg
         /\ SendLine s e <> Panics msg).
Proof.
  intros Hr. apply reachable_sound in Hr.
  split; [apply Wait_never_panics; exact Hr |].
  split.
  - unfold Interact, bind, ret, reader_Close, copy_pty_to_Stdout.
    destruct (reader_closed e); [discriminate |].
    destruct (reader_close_err e); [discriminate |].
    cbn [pty_closed pty_hangup log set_trace set_reader_closed].
    destruct (pty_closed e); [discriminate |].
    destruct (pty_hangup e); discriminate.
  - split.
    + intros pattern re d. split; [| split].
      * apply ExpectAny_never_panics. exact Hr.
      * unfold Expect, bind, ret. intros H.
        destruct (ExpectAny pattern None d e) as [r0 e0| |] eqn:HE;
          try discriminate.
        injection H as <-. exact (ExpectAny_never_panics _ _ _ _ _ Hr HE).
      * apply ExpectAny_never_panics. exact Hr.
    + intros s. unfold Write, Send, SendLine, pty_Write.
      destruct (pty_closed e); [repeat split; discriminate |].
      destruct (pty_write_err e); repeat split; discriminate.
Qed.

Lemma reachable_never_panics_witness :
  Wait login_failed <> Panics "close of closed channel".
Proof.
  refine (proj1 (reachable_never_panics login_failed
                   "close of closed channel" _)).
  apply (reach_ExpectAny login "password:" None Second
           ("", Some ErrDeadlineExceeded) login_failed).
  - apply (reach_Spawn "ssh 127.0.0.1" (3 * Second) host_login login).
    reflexivity.
  - vm_compute. reflexivity.
Defined.

(** ** What every session keeps *)

Lemma Wait_timeout (e e' : Session) (r : option error) :
  Wait e = Returns r e' -> timeout e' = timeout e.
Proof.
  run_Wait. destruct (child_exit e); [| discriminate].
  cbn [pty_closed pty_close_err log set_trace set_now].
  destruct (pty_closed e).
  - intros H. injection H as _ <-. reflexivity.
  - destruct (pty_close_err e).
    + intros H. injection H as _ <-. reflexivity.
    + cbn [signal_closed log set_trace set_pty_closed set_now].
      destruct (signal_closed e); [discriminate |].
      cbn [restore_err log set_trace set_signal_closed set_pty_closed
             set_now].
      destruct (restore_err e); intros H; injection H as _ <-; reflexivity.
Qed.

Lemma Interact_handles (e e' : Session) (r : option error) :
  Interact e = Returns r e' ->
  timeout e' = timeout e /\ raw e' = raw e
  /\ signal_closed e' = signal_closed e /\ pty_closed e' = pty_closed e.
Proof.
  unfold Interact, bind, ret, reader_Close, copy_pty_to_Stdout. intros H.
  destruct (reader_closed e).
  - injection H as _ <-. repeat split.
  - destruct (reader_close_err e).
    + injection H as _ <-. repeat split.
    + cbn [pty_closed pty_hangup log set_trace set_reader_closed] in H.
      destruct (pty_closed e) eqn:Hp.
      * injection H as _ <-. repeat split. exact Hp.
      * destruct (pty_hangup e); [| discriminate].
        injection H as _ <-. repeat split. exact Hp.
Qed.

Lemma pty_Write_handles (s : string) (e e' : Session)
      (r : Z * option error) :
  pty_Write s e = Returns r e' ->
  timeout e' = timeout e /\ raw e' = raw e
  /\ signal_closed e' = signal_closed e /\ pty_closed e' = pty_closed e.
Proof.
  unfold pty_Write. intros H.
  destruct (pty_closed e) eqn:Hp; [| destruct (pty_write_err e)];
    injection H as _ <-; repeat split; exact Hp.
Qed.

Lemma Wait_kept (e e' : Session) (r : option error) :
  kept e -> Wait e = Returns r e' -> kept e'.
Proof.
  unfold kept. intros (I1 & I2 & I3) H.
  pose proof (Wait_timeout _ _ _ H) as Ht. apply Wait_cases in H.
  destruct H as (x & _ & _ & Hp & _ & _ & _ & _ & Hc).
  split; [lia |]. split; [| intros _; exact Hp].
  destruct Hc as [(y & _ & _ & _ & Hraw & Hs) | (_ & _ & _ & _ & Hs & _)].
  - intros Hr. rewrite Hs. apply I2. congruence.
  - intros _. exact Hs.
Qed.

Lemma ExpectAny_kept (pattern : string) (re : option Regexp)
      (d : Duration) (e e' : Session) (r : string * option error) :
  kept e -> ExpectAny pattern re d e = Returns r e' -> kept e'.
Proof.
  intros HI H. apply ExpectAny_cases in H.
  destruct H as [(m & _ & HL) | (e1 & w & HL & HW & _)];
    destruct (loop_frame _ _ _ _ _ _ _ HL) as (H1 & H2 & H3 & _ & H5 & _).
  - unfold kept in *. rewrite H1, H2, H3, H5. exact HI.
  - apply (Wait_kept e1 e' w); [| exact HW].
    unfold kept in *. rewrite H1, H2, H3, H5. exact HI.
Qed.

(** X24: whatever a program does with a session, its default timeout stays
    the one Spawn stored, which is at least a nanosecond, and the
    terminal leaves raw mode only through a teardown that has closed
    the pty and the notification channel first: as long as the pty is
    open the terminal is raw. *)
Theorem reachable_keeps (e : Session) :
  reachable e ->
  1 <= timeout e
  /\ (raw e = false -> signal_closed e = true)
  /\ (signal_closed e = true -> pty_closed e = true).
Proof.
  intros Hr. change (kept e).
  induction Hr as [c t h e HS | e t _ IH _ | e r e' _ IH H | e r e' _ IH H
                  | e p re d r e' _ IH H | e p d r e' _ IH H
                  | e re d r e' _ IH H | e b r e' _ IH H
                  | e s r e' _ IH H | e s r e' _ IH H].
  - apply Spawn_fresh in HS.
    destruct HS as (Hs & _ & _ & Hraw & _ & _ & _ & _ & Ht).
    split; [exact Ht |]. split; [| exact Hs].
    rewrite Hraw. discriminate.
  - exact IH.
  - eapply Wait_kept; eassumption.
  - apply Interact_handles in H. destruct H as (Ht & Hraw & Hs & Hp).
    unfold kept in *. rewrite Ht, Hraw, Hs, Hp. exact IH.
  - eapply ExpectAny_kept; eassumption.
  - unfold Expect, bind, ret in H.
    destruct (ExpectAny p None d e) as [r0 e0| |] eqn:HE; try discriminate.
    injection H as _ <-. eapply ExpectAny_kept; eassumption.
  - eapply ExpectAny_kept; eassumption.
  - apply pty_Write_handles in H. destruct H as (Ht & Hraw & Hs & Hp).
    unfold kept in *. rewrite Ht, Hraw, Hs, Hp. exact IH.
  - apply pty_Write_handles in H. destruct H as (Ht & Hraw & Hs & Hp).
    unfold kept in *. rewrite Ht, Hraw, Hs, Hp. exact IH.
  - apply pty_Write_handles in H. destruct H as (Ht & Hraw & Hs & Hp).
    unfold kept in *. rewrite Ht, Hraw, Hs, Hp. exact IH.
Qed.

Lemma reachable_keeps_witness :
  1 <= timeout login_failed
  /\ (raw login_failed = false -> signal_closed login_failed = true)
  /\ (signal_closed login_failed = true -> pty_closed login_failed = true).
Proof.
  apply reachable_keeps.
  apply (reach_ExpectAny login "password:" None Second
           ("", Some ErrDeadlineExceeded) login_failed).
  - apply (reach_Spawn "ssh 127.0.0.1" (3 * Second) host_login login).
    reflexivity.
  - vm_compute. reflexivity.
Defined.
